(** * The form-state engine of webmx-ui (src/composables/useForm.ts)

    A shallow embedding of [useForm]: the JavaScript values the engine
    handles, the rule checker [validateValue], and the engine state with
    its operations written in a state-and-exception monad, so that a
    rejected promise keeps the mutations made before the [throw], as the
    JavaScript code does.  Numbers are modelled as integers. *)

From Stdlib Require Import String Ascii List ZArith Bool Lia.
Import ListNotations.
Open Scope string_scope.
Open Scope Z_scope.
Set Warnings "-register-all".

(** ** JavaScript values *)

(** The JSON-like values stored in a form, and thrown by validators. *)
Inductive jsval : Type :=
| JUndef
| JNull
| JBool (b : bool)
| JNum (n : Z)
| JStr (s : string)
| JArr (l : list jsval)
| JObj (props : list (string * jsval)).

(** A plain object: its own enumerable properties in insertion order. *)
Definition obj := list (string * jsval).

(** JavaScript truthiness. *)
Definition truthy (v : jsval) : bool :=
  match v with
  | JUndef | JNull => false
  | JBool b => b
  | JNum n => negb (n =? 0)
  | JStr s => negb (String.eqb s "")
  | JArr _ | JObj _ => true
  end.

(** A computation that returns normally or throws a JavaScript value. *)
Inductive res (A : Type) : Type :=
| Ok (a : A)
| Throw (e : jsval).
Arguments Ok {A} a.
Arguments Throw {A} e.

(** The [TypeError] raised on a property read of [undefined]/[null] or on
    calling something that is not a function. *)
Definition type_error : jsval :=
  JObj [("name", JStr "TypeError"); ("message", JStr "not an object or not a function")].

(** *** Association lists with JavaScript property semantics: an update
    of an existing key keeps its place, a new key goes last. *)
Section Props.
Context {A : Type}.

Fixpoint prop_get (k : string) (l : list (string * A)) : option A :=
  match l with
  | [] => None
  | (k', v) :: l' => if String.eqb k k' then Some v else prop_get k l'
  end.

Fixpoint prop_set (k : string) (v : A) (l : list (string * A)) : list (string * A) :=
  match l with
  | [] => [(k, v)]
  | (k', v') :: l' =>
      if String.eqb k k' then (k', v) :: l' else (k', v') :: prop_set k v l'
  end.

(** [delete o[k]] *)
Fixpoint prop_delete (k : string) (l : list (string * A)) : list (string * A) :=
  match l with
  | [] => []
  | (k', v') :: l' =>
      if String.eqb k k' then prop_delete k l' else (k', v') :: prop_delete k l'
  end.

End Props.

(** *** Conversions *)

Definition digit_char (d : Z) : ascii := ascii_of_nat (48 + Z.to_nat d).

Fixpoint digits_aux (fuel : nat) (n : Z) (acc : string) : string :=
  match fuel with
  | O => String (digit_char n) acc
  | S f =>
      if n <? 10 then String (digit_char n) acc
      else digits_aux f (n / 10) (String (digit_char (n mod 10)) acc)
  end.

(** [String(n)] for an integer [n]. *)
Definition Z_to_dec (n : Z) : string :=
  let a := Z.abs n in
  let ds := digits_aux (S (Z.to_nat (Z.log2 a))) a "" in
  if n <? 0 then "-" ++ ds else ds.

Fixpoint join_comma (l : list string) : string :=
  match l with
  | [] => ""
  | [s] => s
  | s :: l' => s ++ "," ++ join_comma l'
  end.

(** [String(v)]: also the property key [o[v]] is written to. *)
Fixpoint js_to_string (v : jsval) : string :=
  match v with
  | JUndef => "undefined"
  | JNull => "null"
  | JBool true => "true"
  | JBool false => "false"
  | JNum n => Z_to_dec n
  | JStr s => s
  | JArr l =>
      join_comma
        (map (fun x => match x with JUndef | JNull => "" | _ => js_to_string x end) l)
  | JObj _ => "[object Object]"
  end.

Definition is_digit (c : ascii) : bool :=
  let n := nat_of_ascii c in (Nat.leb 48 n && Nat.leb n 57)%bool.

Fixpoint dec_value (s : string) (acc : Z) : option Z :=
  match s with
  | EmptyString => Some acc
  | String c s' =>
      if is_digit c then dec_value s' (acc * 10 + Z.of_nat (nat_of_ascii c - 48))
      else None
  end.

(** [Number(v)] on integers; [None] is [NaN].  Numeric strings are limited
    to plain decimal digits. *)
Definition js_to_number (v : jsval) : option Z :=
  match v with
  | JUndef => None
  | JNull => Some 0
  | JBool b => Some (if b then 1 else 0)
  | JNum n => Some n
  | JStr s => dec_value s 0
  | JArr _ => dec_value (js_to_string v) 0
  | JObj _ => None
  end.

(** *** Property reads of the validators' failures *)

(** [v.k] for the non-index properties the engine reads ([issues],
    [errors], [message], [inner], [path]): primitives and arrays have
    none of them. *)
Definition get_prop (v : jsval) (k : string) : res jsval :=
  match v with
  | JUndef | JNull => Throw type_error
  | JObj ps => Ok (match prop_get k ps with Some x => x | None => JUndef end)
  | _ => Ok JUndef
  end.

(** [v[0]] *)
Definition get_first (v : jsval) : res jsval :=
  match v with
  | JUndef | JNull => Throw type_error
  | JArr (x :: _) => Ok x
  | JStr (String c _) => Ok (JStr (String c EmptyString))
  | JObj ps => Ok (match prop_get "0" ps with Some x => x | None => JUndef end)
  | _ => Ok JUndef
  end.

(** [a === JStr s] *)
Definition strict_eq_str (a : jsval) (s : string) : bool :=
  match a with JStr s' => String.eqb s' s | _ => false end.

(** ** Validation rules *)

(** JavaScript's [\s] restricted to 8-bit characters. *)
Definition is_space (c : ascii) : bool :=
  let n := nat_of_ascii c in
  (Nat.leb 9 n && Nat.leb n 13 || Nat.eqb n 32 || Nat.eqb n 160)%bool.

Definition is_at (c : ascii) : bool := Ascii.eqb c "@"%char.

(** [[^\s@]*]: no whitespace and no [@]. *)
Fixpoint plain_chars (s : string) : bool :=
  match s with
  | EmptyString => true
  | String c s' => (negb (is_space c) && negb (is_at c) && plain_chars s')%bool
  end.

(** Some ['.'] of [s] has a character after it. *)
Fixpoint dot_not_last (s : string) : bool :=
  match s with
  | EmptyString => false
  | String c s' =>
      (Ascii.eqb c "."%char && negb (String.eqb s' "") || dot_not_last s')%bool
  end.

(** The text before the first [@] and the text after it. *)
Fixpoint split_at_sign (s : string) : option (string * string) :=
  match s with
  | EmptyString => None
  | String c s' =>
      if is_at c then Some (EmptyString, s')
      else match split_at_sign s' with
           | Some (a, b) => Some (String c a, b)
           | None => None
           end
  end.

(** [/^[^\s@]+@[^\s@]+\.[^\s@]+$/.test(s)]: one [@], a non-empty local
    part, and after the [@] a ['.'] that is neither first nor last. *)
Definition email_test (s : string) : bool :=
  match split_at_sign s with
  | None => false
  | Some (a, b) =>
      (negb (String.eqb a "") && plain_chars a && plain_chars b &&
       match b with
       | EmptyString => false
       | String _ b' => dot_not_last b'
       end)%bool
  end.

(** [ValidationRule.type] *)
Inductive rule_type : Type :=
| Required | Email | Min | Max | MinLength | MaxLength | Pattern | Custom.

(** [ValidationRule.value] is [any]: a plain value (absent: [undefined]),
    a [RegExp] (its [test] on the string form of its argument) or a
    function, which may throw. *)
Inductive rule_arg : Type :=
| RAVal (v : jsval)
| RARegex (test : string -> bool)
| RAFun (f : jsval -> res jsval).

(** [ValidationRule] *)
Record rule : Type := mkRule {
  rtype : rule_type;
  rvalue : rule_arg;
  message : string
}.

(** [a < rule.value] for a number [a]. *)
Definition num_lt (a : Z) (r : rule_arg) : bool :=
  match r with
  | RAVal v => match js_to_number v with Some b => a <? b | None => false end
  | _ => false
  end.

(** [a > rule.value] for a number [a]. *)
Definition num_gt (a : Z) (r : rule_arg) : bool :=
  match r with
  | RAVal v => match js_to_number v with Some b => b <? a | None => false end
  | _ => false
  end.

(** [value === undefined || value === null || value === '' ||
     (Array.isArray(value) && value.length === 0)] *)
Definition is_blank (v : jsval) : bool :=
  match v with
  | JUndef | JNull | JStr EmptyString | JArr [] => true
  | _ => false
  end.

Definition slen (s : string) : Z := Z.of_nat (String.length s).

(** [validateValue(value, rules)]: the [for] loop over the rules with its
    [switch]; [Ok None] is [undefined]. *)
Fixpoint validateValue (value : jsval) (rules : list rule) : res (option string) :=
  match rules with
  | [] => Ok None
  | rule :: rest =>
      let fail := Ok (Some (message rule)) in
      let next := validateValue value rest in
      match rtype rule with
      | Required => if is_blank value then fail else next
      | Email =>
          if (truthy value && negb (email_test (js_to_string value)))%bool
          then fail else next
      | Min =>
          match value with
          | JNum a => if num_lt a (rvalue rule) then fail else next
          | _ => next
          end
      | Max =>
          match value with
          | JNum a => if num_gt a (rvalue rule) then fail else next
          | _ => next
          end
      | MinLength =>
          match value with
          | JStr s => if num_lt (slen s) (rvalue rule) then fail else next
          | _ => next
          end
      | MaxLength =>
          match value with
          | JStr s => if num_gt (slen s) (rvalue rule) then fail else next
          | _ => next
          end
      | Pattern =>
          if truthy value then
            match rvalue rule with
            | RARegex test => if test (js_to_string value) then next else fail
            | _ => Throw type_error
            end
          else next
      | Custom =>
          if truthy value then
            match rvalue rule with
            | RAFun f =>
                match f value with
                | Throw e => Throw e
                | Ok r => if truthy r then next else fail
                end
            | _ => Throw type_error
            end
          else next
      end
  end.

(** ** Engine state *)

(** [FieldMeta]; an absent [error] is [JUndef]. *)
Record field_meta : Type := mkMeta {
  touched : bool;
  dirty : bool;
  error : jsval;
  valid : bool;
  pending : bool
}.

(** [{ touched: t, dirty: false, valid: true, pending: false }] *)
Definition new_meta (t : bool) : field_meta := mkMeta t false JUndef true false.

(** The error bag [Record<string, string[]>]; schema validators may put
    any value in it, so the messages are JavaScript values. *)
Definition error_bag := list (string * list jsval).

(** The [Partial<FormState>] argument of [resetForm]. *)
Record partial_state : Type := mkPartial {
  ps_values : option obj;
  ps_errors : option (list (string * string));
  ps_touched : option (list (string * bool));
  ps_submitCount : option Z
}.

(** The operations of the [SubmissionContext] handed to callbacks. *)
Inductive ctx_op : Type :=
| CResetForm (ps : option partial_state)
| CSetErrors (l : list (string * string))
| CSetFieldError (name : string) (msg : string)
| CSetFieldValue (name : string) (v : jsval)
| CSetValues (l : list (string * jsval))
| CSetFieldTouched (name : string) (t : bool)
| CSetTouched (l : list (string * bool)).

(** What an [onValid]/[onSubmit] callback does: operations on the context,
    or writes [data[k] = v] on the values object it was handed. *)
Inductive cb_action : Type :=
| ACtx (op : ctx_op)
| AWriteData (k : string) (v : jsval).

(** An [onValid]/[onSubmit] callback: from the values it receives, the
    actions it performs and, when its promise rejects, the thrown value. *)
Definition submit_cb := obj -> list cb_action * option jsval.

(** An [onInvalid] callback: the error bag after its in-place changes and,
    when it throws, the thrown value. *)
Definition invalid_cb := error_bag -> error_bag * option jsval.

(** A schema object as the engine probes and calls it.  A method that is
    not a function is [None]: calling it raises a [TypeError]. *)
Record schema_obj : Type := mkSchema {
  has_def : bool;                                  (* '_def' in schema *)
  has_yup_flag : bool;                             (* '__isYupSchema__' in schema *)
  parseAsync : option (obj -> res unit);
  validateAt : option (string -> obj -> res unit);
  validate_all : option (obj -> res unit);         (* validate(values, { abortEarly: false }) *)
  rule_entries : list (string * list rule)         (* Object.entries, as a rules mapping *)
}.

(** What [useForm] closes over and never changes. *)
Record env : Type := mkEnv {
  initialValues_loc : nat;   (* the caller's [initialValues] object *)
  activeSchema : option schema_obj;
  onSubmit : option submit_cb
}.

Definition isZodSchema (E : env) : bool :=
  match activeSchema E with Some s => has_def s | None => false end.

Definition isYupSchema (E : env) : bool :=
  match activeSchema E with Some s => has_yup_flag s | None => false end.

(** The mutable state: a heap of objects (the [values] ref points into it,
    so aliasing of the values object is explicit) and the other refs. *)
Record form_state : Type := mkState {
  heap : list (nat * obj);
  next_loc : nat;
  values_loc : nat;
  errors : error_bag;
  fieldsMeta : list (string * field_meta);
  isSubmitting : bool;
  isValidating : bool;
  submitCount : Z;
  fieldRules : list (string * list rule)
}.

Fixpoint heap_get (h : list (nat * obj)) (l : nat) : option obj :=
  match h with
  | [] => None
  | (l', o) :: h' => if Nat.eqb l l' then Some o else heap_get h' l
  end.

Fixpoint heap_set (h : list (nat * obj)) (l : nat) (o : obj) : list (nat * obj) :=
  match h with
  | [] => [(l, o)]
  | (l', o') :: h' => if Nat.eqb l l' then (l', o) :: h' else (l', o') :: heap_set h' l o
  end.

Definition obj_at (s : form_state) (l : nat) : obj :=
  match heap_get (heap s) l with Some o => o | None => [] end.

(** [values.value] *)
Definition values_obj (s : form_state) : obj := obj_at s (values_loc s).

(** [values.value[name]] *)
Definition value_of (s : form_state) (name : string) : jsval :=
  match prop_get name (values_obj s) with Some v => v | None => JUndef end.

(** *** Field updates *)

Definition with_heap (h : list (nat * obj)) (s : form_state) : form_state :=
  mkState h (next_loc s) (values_loc s) (errors s) (fieldsMeta s)
    (isSubmitting s) (isValidating s) (submitCount s) (fieldRules s).

Definition with_errors (e : error_bag) (s : form_state) : form_state :=
  mkState (heap s) (next_loc s) (values_loc s) e (fieldsMeta s)
    (isSubmitting s) (isValidating s) (submitCount s) (fieldRules s).

Definition with_meta (m : list (string * field_meta)) (s : form_state) : form_state :=
  mkState (heap s) (next_loc s) (values_loc s) (errors s) m
    (isSubmitting s) (isValidating s) (submitCount s) (fieldRules s).

Definition with_submitting (b : bool) (s : form_state) : form_state :=
  mkState (heap s) (next_loc s) (values_loc s) (errors s) (fieldsMeta s)
    b (isValidating s) (submitCount s) (fieldRules s).

Definition with_validating (b : bool) (s : form_state) : form_state :=
  mkState (heap s) (next_loc s) (values_loc s) (errors s) (fieldsMeta s)
    (isSubmitting s) b (submitCount s) (fieldRules s).

Definition with_count (n : Z) (s : form_state) : form_state :=
  mkState (heap s) (next_loc s) (values_loc s) (errors s) (fieldsMeta s)
    (isSubmitting s) (isValidating s) n (fieldRules s).

Definition with_rules (r : list (string * list rule)) (s : form_state) : form_state :=
  mkState (heap s) (next_loc s) (values_loc s) (errors s) (fieldsMeta s)
    (isSubmitting s) (isValidating s) (submitCount s) r.

(** [values.value = { ...o }]: a fresh object. *)
Definition with_new_values (o : obj) (s : form_state) : form_state :=
  mkState ((next_loc s, o) :: heap s) (S (next_loc s)) (next_loc s) (errors s)
    (fieldsMeta s) (isSubmitting s) (isValidating s) (submitCount s) (fieldRules s).

(** ** The state-and-exception monad *)

Definition M (A : Type) := form_state -> res A * form_state.

Definition ret {A} (a : A) : M A := fun s => (Ok a, s).

Definition bind {A B} (m : M A) (k : A -> M B) : M B :=
  fun s => match m s with
           | (Ok a, s') => k a s'
           | (Throw e, s') => (Throw e, s')
           end.

Definition throw {A} (e : jsval) : M A := fun s => (Throw e, s).

Definition modify (f : form_state -> form_state) : M unit := fun s => (Ok tt, f s).

Definition gets {A} (f : form_state -> A) : M A := fun s => (Ok (f s), s).

(** A pure step that may throw, e.g. a property read. *)
(** Code that reads the refs before running. *)
Definition read_state {A} (f : form_state -> M A) : M A := fun s => f s s.

Definition lift {A} (r : res A) : M A :=
  fun s => match r with Ok a => (Ok a, s) | Throw e => (Throw e, s) end.

Notation "x <- m ;; k" := (bind m (fun x => k))
  (at level 61, m at next level, right associativity).
Notation "m ;;; k" := (bind m (fun _ => k)) (at level 61, right associativity).

(** Run [f] over the entries of an object, in order. *)
Fixpoint for_each {A} (f : A -> M unit) (l : list A) : M unit :=
  match l with
  | [] => ret tt
  | x :: l' => f x ;;; for_each f l'
  end.

(** ** Field mutation operations *)

(** [(values.value as any)[name] = v] *)
Definition write_value (name : string) (v : jsval) (s : form_state) : form_state :=
  with_heap (heap_set (heap s) (values_loc s) (prop_set name v (values_obj s))) s.

(** [fieldsMeta.value[name]], created by [mk] when absent, then changed by [f]. *)
Definition update_meta (name : string) (mk : field_meta) (f : field_meta -> field_meta)
    (s : form_state) : form_state :=
  let m := match prop_get name (fieldsMeta s) with Some m => m | None => mk end in
  with_meta (prop_set name (f m) (fieldsMeta s)) s.

Definition set_dirty (m : field_meta) : field_meta :=
  mkMeta (touched m) true (error m) (valid m) (pending m).

Definition set_touched (t : bool) (m : field_meta) : field_meta :=
  mkMeta t (dirty m) (error m) (valid m) (pending m).

Definition setFieldValue (name : string) (v : jsval) : M unit :=
  modify (fun s => update_meta name (new_meta false) set_dirty (write_value name v s)).

Definition setValues (fields : list (string * jsval)) : M unit :=
  for_each (fun '(k, v) => setFieldValue k v) fields.

Definition setFieldError (name : string) (msg : string) : M unit :=
  modify (fun s => with_errors (prop_set name [JStr msg] (errors s)) s).

Definition setErrors (fields : list (string * string)) : M unit :=
  for_each (fun '(k, m) => setFieldError k m) fields.

(** [errors.value = { ...errors.value, ...serverErrors }] *)
Definition setServerErrors (serverErrors : error_bag) : M unit :=
  modify (fun s =>
    with_errors (fold_left (fun e '(k, l) => prop_set k l e) serverErrors (errors s)) s).

(** Both branches of [setFieldTouched] leave [touched = isTouched]. *)
Definition setFieldTouched (name : string) (t : bool) : M unit :=
  modify (update_meta name (new_meta t) (set_touched t)).

Definition setTouched (fields : list (string * bool)) : M unit :=
  for_each (fun '(k, t) => setFieldTouched k t) fields.

(** [errors.value[name]?.[0]] *)
Definition getFieldError (name : string) (s : form_state) : jsval :=
  match prop_get name (errors s) with
  | Some (x :: _) => x
  | _ => JUndef
  end.

Definition getFieldMeta (name : string) : M field_meta :=
  modify (fun s =>
    update_meta name (new_meta false)
      (fun m => let e := getFieldError name s in
                mkMeta (touched m) (dirty m) e (negb (truthy e)) (pending m)) s) ;;;
  gets (fun s => match prop_get name (fieldsMeta s) with
                 | Some m => m | None => new_meta false end).

(** [delete errors.value[name]] *)
Definition clear_error (name : string) : M unit :=
  modify (fun s => with_errors (prop_delete name (errors s)) s).

(** [errors.value[name] = [m]] *)
Definition put_error (name : string) (m : jsval) : M unit :=
  modify (fun s => with_errors (prop_set name [m] (errors s)) s).

(** [if (!errors.value[k]) errors.value[k] = []; errors.value[k].push(m)] *)
Definition push_error (k : string) (m : jsval) : M unit :=
  modify (fun s =>
    let l := match prop_get k (errors s) with Some l => l | None => [] end in
    with_errors (prop_set k (l ++ [m])%list (errors s)) s).

(** ** Validation *)

(** [arr.find(pred)]; a non-array has no [find] method. *)
Fixpoint find_aux (pred : jsval -> res bool) (l : list jsval) : res jsval :=
  match l with
  | [] => Ok JUndef
  | x :: l' =>
      match pred x with
      | Throw e => Throw e
      | Ok true => Ok x
      | Ok false => find_aux pred l'
      end
  end.

Definition js_find (pred : jsval -> res bool) (arr : jsval) : res jsval :=
  match arr with JArr l => find_aux pred l | _ => Throw type_error end.

(** [arr.forEach(f)] *)
Definition js_for_each (f : jsval -> M unit) (arr : jsval) : M unit :=
  match arr with JArr l => for_each f l | _ => throw type_error end.

Definition rbind {A B} (r : res A) (k : A -> res B) : res B :=
  match r with Ok a => k a | Throw e => Throw e end.

(** [e => e.path[0] === name] *)
Definition path_is (name : string) (e : jsval) : res bool :=
  rbind (get_prop e "path") (fun p =>
  rbind (get_first p) (fun x => Ok (strict_eq_str x name))).

(** [const issues = err.issues || err.errors] *)
Definition zod_issues (err : jsval) : res jsval :=
  rbind (get_prop err "issues") (fun i =>
  if truthy i then Ok i else get_prop err "errors").

(** Calling [schema.parseAsync(values)] and the like: a missing method
    throws a [TypeError], inside the [try]. *)
Definition call1 {A} (f : option (A -> res unit)) (a : A) : res unit :=
  match f with Some f => f a | None => Throw type_error end.

Definition zod_parse (E : env) (o : obj) : res unit :=
  match activeSchema E with Some sc => call1 (parseAsync sc) o | None => Throw type_error end.

Definition yup_validate_at (E : env) (name : string) (o : obj) : res unit :=
  match activeSchema E with
  | Some sc => match validateAt sc with Some f => f name o | None => Throw type_error end
  | None => Throw type_error
  end.

Definition yup_validate (E : env) (o : obj) : res unit :=
  match activeSchema E with Some sc => call1 (validate_all sc) o | None => Throw type_error end.

(** The rules part of [validateField] (also reached by the Yup branch when
    its failure has no message). *)
Definition validate_with_rules (name : string) (value : jsval)
    (rulesToUse : option (list rule)) : M (bool * list jsval) :=
  match rulesToUse with
  | Some rs =>
      err <- lift (validateValue value rs) ;;
      match err with
      | Some m =>
          if truthy (JStr m) then put_error name (JStr m) ;;; ret (false, [JStr m])
          else clear_error name ;;; ret (true, [])
      | None => clear_error name ;;; ret (true, [])
      end
  | None => ret (true, [])
  end.

(** [validateField(name, rules?)] *)
Definition validateField (E : env) (name : string) (rules : option (list rule))
    : M (bool * list jsval) :=
  read_state (fun s0 =>
  let value := value_of s0 name in
  let rulesToUse := match rules with
                    | Some r => Some r
                    | None => prop_get name (fieldRules s0)
                    end in
  (if isZodSchema E then
     match zod_parse E (values_obj s0) with
     | Ok _ => clear_error name ;;; ret (true, [])
     | Throw err =>
         issues <- lift (zod_issues err) ;;
         (if truthy issues then
            fieldError <- lift (js_find (path_is name) issues) ;;
            (if truthy fieldError then
               msg <- lift (get_prop fieldError "message") ;;
               put_error name msg ;;; ret (false, [msg])
             else clear_error name ;;; ret (true, []))
          else clear_error name ;;; ret (true, []))
     end
   else if isYupSchema E then
     match yup_validate_at E name (values_obj s0) with
     | Ok _ => clear_error name ;;; ret (true, [])
     | Throw err =>
         msg <- lift (get_prop err "message") ;;
         if truthy msg then put_error name msg ;;; ret (false, [msg])
         else validate_with_rules name value rulesToUse
     end
   else validate_with_rules name value rulesToUse)).

(** [errors.value[key][0]] for every key: the [Record<string, string>]
    returned by [validate]. *)
Definition simple_errors (e : error_bag) : list (string * jsval) :=
  map (fun '(k, l) => (k, match l with x :: _ => x | [] => JUndef end)) e.

Definition finish_invalid : M (bool * list (string * jsval)) :=
  modify (with_validating false) ;;;
  e <- gets errors ;;
  ret (false, simple_errors e).

(** The loop [for (const [fieldName, rules] of Object.entries(fieldRules.value))]. *)
Fixpoint validate_rules_loop (E : env) (entries : list (string * list rule)) (isValid : bool)
    : M bool :=
  match entries with
  | [] => ret isValid
  | (fieldName, rules) :: rest =>
      result <- validateField E fieldName (Some rules) ;;
      validate_rules_loop E rest (if fst result then isValid else false)
  end.

(** [validate()] *)
Definition validate (E : env) : M (bool * list (string * jsval)) :=
  modify (with_validating true) ;;;
  modify (with_errors []) ;;;
  read_state (fun s0 =>
  (if isZodSchema E then
     match zod_parse E (values_obj s0) with
     | Ok _ => modify (with_validating false) ;;; ret (true, [])
     | Throw err =>
         issues <- lift (zod_issues err) ;;
         (if truthy issues then
            js_for_each (fun error =>
              fieldName <- lift (rbind (get_prop error "path") get_first) ;;
              msg <- lift (get_prop error "message") ;;
              push_error (js_to_string fieldName) msg) issues
          else ret tt) ;;;
         finish_invalid
     end
   else if isYupSchema E then
     match yup_validate E (values_obj s0) with
     | Ok _ => modify (with_validating false) ;;; ret (true, [])
     | Throw err =>
         inner <- lift (get_prop err "inner") ;;
         (match inner with
          | JArr _ =>
              js_for_each (fun error =>
                fieldName <- lift (get_prop error "path") ;;
                msg <- lift (get_prop error "message") ;;
                push_error (js_to_string fieldName) msg) inner
          | _ => ret tt
          end) ;;;
         finish_invalid
     end
   else
     isValid <- validate_rules_loop E (fieldRules s0) true ;;
     modify (with_validating false) ;;;
     e <- gets errors ;;
     ret (isValid, simple_errors e))).

(** ** Reset *)

(** [resetForm(state?)] *)
Definition resetForm (E : env) (ps : option partial_state) : M unit :=
  read_state (fun s0 =>
  let src := match option_map ps_values ps with
             | Some (Some o) => o
             | _ => obj_at s0 (initialValues_loc E)
             end in
  (modify (with_new_values src) ;;;
   modify (with_errors []) ;;;
   (match option_map ps_errors ps with
    | Some (Some es) => for_each (fun '(k, v) => put_error k (JStr v)) es
    | _ => ret tt
    end) ;;;
   modify (with_meta []) ;;;
   (match option_map ps_touched ps with
    | Some (Some ts) =>
        for_each (fun '(k, t) =>
          modify (fun s => with_meta (prop_set k (new_meta t) (fieldsMeta s)) s)) ts
    | _ => ret tt
    end) ;;;
   modify (with_submitting false) ;;;
   modify (with_validating false) ;;;
   modify (with_count (match option_map ps_submitCount ps with
                       | Some (Some n) => n
                       | _ => 0
                       end)))).

(** ** Submission *)

Definition run_ctx_op (E : env) (op : ctx_op) : M unit :=
  match op with
  | CResetForm ps => resetForm E ps
  | CSetErrors l => setErrors l
  | CSetFieldError n m => setFieldError n m
  | CSetFieldValue n v => setFieldValue n v
  | CSetValues l => setValues l
  | CSetFieldTouched n t => setFieldTouched n t
  | CSetTouched l => setTouched l
  end.

(** The callback's actions; [data] is the location of the values object it
    was handed. *)
Definition run_action (E : env) (data : nat) (a : cb_action) : M unit :=
  match a with
  | ACtx op => run_ctx_op E op
  | AWriteData k v =>
      modify (fun s => with_heap (heap_set (heap s) data (prop_set k v (obj_at s data))) s)
  end.

(** [await cb(values.value, submissionContext)] *)
Definition call_submit_cb (E : env) (cb : submit_cb) : M unit :=
  read_state (fun s0 =>
  let '(acts, thrown) := cb (values_obj s0) in
  (for_each (run_action E (values_loc s0)) acts ;;;
   match thrown with Some e => throw e | None => ret tt end)).

(** [try { ... } catch (error) { console.error(...) }] *)
Definition try_catch_log (m : M unit) : M unit :=
  fun s => match m s with
           | (Ok _, s') => (Ok tt, s')
           | (Throw _, s') => (Ok tt, s')
           end.

(** [onInvalid(errors.value)] *)
Definition call_invalid_cb (cb : invalid_cb) : M unit :=
  fun s =>
  let '(e', thrown) := cb (errors s) in
  match thrown with
  | Some e => (Throw e, with_errors e' s)
  | None => (Ok tt, with_errors e' s)
  end.

(** The handler returned by [handleSubmit(onValid?, onInvalid?)]; the
    event's [preventDefault]/[stopPropagation] do not touch the state. *)
Definition handleSubmit (E : env) (onValid : option submit_cb) (onInvalid : option invalid_cb)
    : M unit :=
  modify (with_submitting true) ;;;
  modify (fun s => with_count (submitCount s + 1) s) ;;;
  result <- validate E ;;
  (if fst result then
     try_catch_log
       (match onValid with
        | Some cb => call_submit_cb E cb
        | None => match onSubmit E with
                  | Some cb => call_submit_cb E cb
                  | None => ret tt
                  end
        end)
   else match onInvalid with
        | Some cb => call_invalid_cb cb
        | None => ret tt
        end) ;;;
  modify (with_submitting false).

(** [submitForm(e?)] *)
Definition submitForm (E : env) : M unit := handleSubmit E None None.

(** ** Field binding *)

Inductive validate_on : Type := OnBlur | OnChange | OnSubmit.

(** The options of [register]: [rules] and [validateOn], each optional. *)
Record reg_options : Type := mkRegOptions {
  ro_rules : option (list rule);
  ro_validateOn : option validate_on
}.

Definition reg_rules (o : option reg_options) : option (list rule) :=
  match o with Some o => ro_rules o | None => None end.

(** [validateOn = 'blur'] by default. *)
Definition reg_validateOn (o : option reg_options) : validate_on :=
  match o with
  | Some {| ro_validateOn := Some v |} => v
  | _ => OnBlur
  end.

(** [register(name, options?)]: its state changes; the returned handle's
    callbacks are [onInput] and [onBlur] below. *)
Definition register (name : string) (o : option reg_options) : M unit :=
  (match reg_rules o with
   | Some rs => modify (fun s => with_rules (prop_set name rs (fieldRules s)) s)
   | None => ret tt
   end) ;;;
  read_state (fun s =>
  (if negb (truthy (value_of s name)) then modify (write_value name (JStr ""))
   else ret tt)).

(** A validation started without [await]: its promise is dropped, its
    state changes stay. *)
Definition fire_and_forget {A} (m : M A) : M unit :=
  fun s => (Ok tt, snd (m s)).

(** The [onInput] callback of [register(name, o)], for the input's new value. *)
Definition onInput (E : env) (name : string) (o : option reg_options) (v : jsval) : M unit :=
  setFieldValue name v ;;;
  match reg_validateOn o with
  | OnChange => fire_and_forget (validateField E name (reg_rules o))
  | _ => ret tt
  end.

(** The [onBlur] callback of [register(name, o)]. *)
Definition onBlur (E : env) (name : string) (o : option reg_options) : M unit :=
  modify (update_meta name (new_meta false) (set_touched true)) ;;;
  match reg_validateOn o with
  | OnBlur => fire_and_forget (validateField E name (reg_rules o))
  | _ => ret tt
  end.

(** ** Construction *)

(** [UseFormOptions] *)
Record use_form_options : Type := mkOptions {
  o_initialValues : option obj;
  o_initialErrors : list (string * string);
  o_initialTouched : list (string * bool);
  o_validationSchema : option schema_obj;
  o_schema : option schema_obj;
  o_validateOnMount : bool;
  o_onSubmit : option submit_cb
}.

(** [const activeSchema = validationSchema || schema]: a schema object is
    truthy, an absent one is [undefined]. *)
Definition active_schema (vs s : option schema_obj) : option schema_obj :=
  match vs with
  | Some o => Some o
  | None => s
  end.

(** The caller's [initialValues] object (or the default [{}]) lives at
    location 0. *)
Definition env_of (opts : use_form_options) : env :=
  mkEnv 0 (active_schema (o_validationSchema opts) (o_schema opts)) (o_onSubmit opts).

Definition initial_object (opts : use_form_options) : obj :=
  match o_initialValues opts with Some o => o | None => [] end.

(** The rules mapping kept in [fieldRules] when the active schema is
    neither a Zod nor a Yup schema. *)
Definition initial_rules (E : env) : list (string * list rule) :=
  match activeSchema E with
  | Some sc => if (negb (isZodSchema E) && negb (isYupSchema E))%bool
               then rule_entries sc else []
  | None => []
  end.

(** The state built by [useForm(options)] before [validateOnMount]. *)
Definition setup_state (opts : use_form_options) : form_state :=
  let E := env_of opts in
  let io := initial_object opts in
  let s := mkState [(0%nat, io); (1%nat, io)] 2 1 [] [] false false 0 (initial_rules E) in
  let s := snd (for_each (fun '(k, v) => put_error k (JStr v)) (o_initialErrors opts) s) in
  snd (setTouched (o_initialTouched opts) s).

(** [useForm(options)]: the [validate()] on mount is not awaited; it is run
    to its end here. *)
Definition useForm (opts : use_form_options) : form_state :=
  let s := setup_state opts in
  if o_validateOnMount opts then snd (validate (env_of opts) s) else s.

(** ** The [meta] computed *)

(** [FormMeta] *)
Record form_meta : Type := mkFormMeta {
  fm_touched : bool;
  fm_dirty : bool;
  fm_valid : bool;
  fm_pending : bool;
  fm_isSubmitting : bool;
  fm_isValidating : bool;
  fm_submitCount : Z;
  fm_initialValues : obj
}.

(** [meta.value]: [Object.values(fieldsMeta.value).some(...)] for the
    flags, [Object.keys(errors.value).length === 0] for [valid]. *)
Definition meta (E : env) (s : form_state) : form_meta :=
  mkFormMeta
    (existsb (fun '(_, m) => touched m) (fieldsMeta s))
    (existsb (fun '(_, m) => dirty m) (fieldsMeta s))
    (Nat.eqb (length (errors s)) 0)
    (existsb (fun '(_, m) => pending m) (fieldsMeta s))
    (isSubmitting s) (isValidating s) (submitCount s)
    (obj_at s (initialValues_loc E)).

(** ** The operations of the public surface, as steps *)

Inductive op : Type :=
| OpSetFieldValue (n : string) (v : jsval)
| OpSetValues (l : list (string * jsval))
| OpSetFieldError (n : string) (m : string)
| OpSetErrors (l : list (string * string))
| OpSetServerErrors (e : error_bag)
| OpSetFieldTouched (n : string) (t : bool)
| OpSetTouched (l : list (string * bool))
| OpGetFieldMeta (n : string)
| OpValidateField (n : string) (rules : option (list rule))
| OpValidate
| OpHandleSubmit (onValid : option submit_cb) (onInvalid : option invalid_cb)
| OpSubmitForm
| OpResetForm (ps : option partial_state)
| OpRegister (n : string) (o : option reg_options)
| OpInput (n : string) (o : option reg_options) (v : jsval)
| OpBlur (n : string) (o : option reg_options).

(** An operation's effect on the state, whether it returns or throws. *)
Definition run_op (E : env) (o : op) (s : form_state) : form_state :=
  match o with
  | OpSetFieldValue n v => snd (setFieldValue n v s)
  | OpSetValues l => snd (setValues l s)
  | OpSetFieldError n m => snd (setFieldError n m s)
  | OpSetErrors l => snd (setErrors l s)
  | OpSetServerErrors e => snd (setServerErrors e s)
  | OpSetFieldTouched n t => snd (setFieldTouched n t s)
  | OpSetTouched l => snd (setTouched l s)
  | OpGetFieldMeta n => snd (getFieldMeta n s)
  | OpValidateField n r => snd (validateField E n r s)
  | OpValidate => snd (validate E s)
  | OpHandleSubmit ov oi => snd (handleSubmit E ov oi s)
  | OpSubmitForm => snd (submitForm E s)
  | OpResetForm ps => snd (resetForm E ps s)
  | OpRegister n o => snd (register n o s)
  | OpInput n o v => snd (onInput E n o v s)
  | OpBlur n o => snd (onBlur E n o s)
  end.

(** The states an engine built from [opts] can reach. *)
Inductive reachable (opts : use_form_options) : form_state -> Prop :=
| reach_init : reachable opts (useForm opts)
| reach_step : forall o s, reachable opts s -> reachable opts (run_op (env_of opts) o s).

(** * Properties *)

(** ** Rule evaluation *)

(** One step of the rule loop: the head rule alone decides unless it
    passes, in which case the rest decides. *)
Lemma validateValue_cons : forall value r rest,
  validateValue value (r :: rest) =
  match validateValue value [r] with
  | Ok None => validateValue value rest
  | other => other
  end.
Proof.
  intros value [t a msg] rest.
  destruct t; simpl;
    repeat match goal with
    | |- context [if ?b then _ else _] => destruct b
    | |- context [match ?x with _ => _ end] => destruct x
    end; reflexivity.
Qed.

(** C5: rules are evaluated in list order and the first failing rule
    decides: with passing rules [pre] before a failing rule [r], the
    result is [r]'s message whatever rules come after, and passing rules
    alone give no error.  In particular [[required, minLength(3)]] on
    [""] gives the required message. *)
Theorem validateValue_first_failure_wins : forall value pre r post m,
  Forall (fun r' => validateValue value [r'] = Ok None) pre ->
  validateValue value [r] = Ok (Some m) ->
  validateValue value (pre ++ r :: post) = Ok (Some m) /\
  validateValue value pre = Ok None /\
  (forall msg_req msg_min,
     validateValue (JStr "")
       [mkRule Required (RAVal JUndef) msg_req; mkRule MinLength (RAVal (JNum 3)) msg_min]
     = Ok (Some msg_req)).
Proof.
  intros value pre r post m Hpre Hr.
  split; [| split].
  - induction Hpre as [| r' pre' Hr' _ IH]; cbn [app].
    + rewrite validateValue_cons, Hr. reflexivity.
    + rewrite validateValue_cons, Hr'. exact IH.
  - induction Hpre as [| r' pre' Hr' _ IH]; [reflexivity |].
    rewrite validateValue_cons, Hr'. exact IH.
  - intros; reflexivity.
Qed.

Lemma validateValue_first_failure_wins_witness :
  validateValue (JStr "") [mkRule Required (RAVal JUndef) "Name is required"]
    = Ok (Some "Name is required") /\
  validateValue (JStr "")
    ([] ++ mkRule Required (RAVal JUndef) "Name is required"
        :: [mkRule MinLength (RAVal (JNum 3)) "Too short"])
    = Ok (Some "Name is required").
Proof.
  split; [reflexivity |].
  apply (validateValue_first_failure_wins (JStr "") []
           (mkRule Required (RAVal JUndef) "Name is required")
           [mkRule MinLength (RAVal (JNum 3)) "Too short"] "Name is required");
    [constructor | reflexivity].
Defined.

(** ** Association-list and heap facts *)

Lemma prop_get_set_same {A} : forall k (v : A) l, prop_get k (prop_set k v l) = Some v.
Proof.
  intros k v l; induction l as [| [k' v'] l IH]; simpl.
  - rewrite String.eqb_refl; reflexivity.
  - destruct (String.eqb k k') eqn:E; simpl.
    + rewrite E; reflexivity.
    + rewrite E; exact IH.
Qed.

Lemma heap_get_set_same : forall h l o, heap_get (heap_set h l o) l = Some o.
Proof.
  intros h l o; induction h as [| [l' o'] h IH]; simpl.
  - rewrite Nat.eqb_refl; reflexivity.
  - destruct (Nat.eqb l l') eqn:E; simpl; rewrite E; [reflexivity | exact IH].
Qed.

Lemma heap_get_set_other : forall h l l' o,
  l <> l' -> heap_get (heap_set h l o) l' = heap_get h l'.
Proof.
  intros h l l' o Hne; induction h as [| [l0 o0] h IH]; simpl.
  - destruct (Nat.eqb l' l) eqn:E; [apply Nat.eqb_eq in E; congruence | reflexivity].
  - destruct (Nat.eqb l l0) eqn:E; simpl.
    + apply Nat.eqb_eq in E; subst l0.
      destruct (Nat.eqb l' l) eqn:E'; [apply Nat.eqb_eq in E'; congruence | reflexivity].
    + destruct (Nat.eqb l' l0); [reflexivity | exact IH].
Qed.

(** ** Field mutation *)

(** C9: after [setFieldValue(n, v)] the field holds [v], its meta exists
    with [dirty = true], and the error bag is untouched. *)
Theorem setFieldValue_writes_and_marks_dirty : forall n v s,
  let s' := snd (setFieldValue n v s) in
  fst (setFieldValue n v s) = Ok tt /\
  value_of s' n = v /\
  (exists m, prop_get n (fieldsMeta s') = Some m /\ dirty m = true) /\
  errors s' = errors s.
Proof.
  intros n v s s'; subst s'; simpl.
  split; [reflexivity |]. split; [| split].
  - unfold value_of, values_obj, obj_at, update_meta, write_value, with_heap, with_meta; simpl.
    rewrite heap_get_set_same, prop_get_set_same. reflexivity.
  - unfold update_meta, with_meta; simpl.
    rewrite prop_get_set_same. eexists; split; reflexivity.
  - reflexivity.
Qed.

(** ** Construction *)

(** C10: when both [validationSchema] and [schema] are given, the active
    schema is [validationSchema]. *)
Theorem validationSchema_takes_precedence : forall opts a b,
  o_validationSchema opts = Some a ->
  o_schema opts = Some b ->
  activeSchema (env_of opts) = Some a.
Proof.
  intros opts a b Ha Hb. unfold env_of; simpl. rewrite Ha. reflexivity.
Qed.

Definition zod_like : schema_obj :=
  mkSchema true false (Some (fun _ => Ok tt)) None None [].

Definition rules_like : schema_obj :=
  mkSchema false false None None None [("name", [mkRule Required (RAVal JUndef) "Name is required"])].

Definition both_schemas_opts : use_form_options :=
  mkOptions None [] [] (Some zod_like) (Some rules_like) false None.

Lemma validationSchema_takes_precedence_witness :
  o_validationSchema both_schemas_opts = Some zod_like /\
  o_schema both_schemas_opts = Some rules_like /\
  activeSchema (env_of both_schemas_opts) = Some zod_like.
Proof.
  split; [reflexivity | split; [reflexivity |]].
  apply (validationSchema_takes_precedence both_schemas_opts zod_like rules_like);
    reflexivity.
Defined.

(** ** Concrete engines *)

(** A Yup-like schema for one field [name]: an empty value is rejected
    with the message ["Required"]; any other value makes the test throw
    an [Error] whose message is empty. *)
Definition yup_name_schema : schema_obj :=
  mkSchema false true None
    (Some (fun field o =>
       match prop_get field o with
       | Some (JStr "") => Throw (JObj [("name", JStr "ValidationError"); ("message", JStr "Required")])
       | _ => Throw (JObj [("name", JStr "Error"); ("message", JStr "")])
       end))
    None [].

Definition yup_opts : use_form_options :=
  mkOptions (Some [("name", JStr "")]) [] [] (Some yup_name_schema) None false None.

(** No schema, [name] already filled in. *)
Definition plain_opts : use_form_options :=
  mkOptions (Some [("name", JStr "John")]) [] [] None None false None.

(** A form whose [age] starts at [0]. *)
Definition age_opts : use_form_options :=
  mkOptions (Some [("age", JNum 0)]) [] [] None None false None.

(** A rules schema whose [custom] predicate throws, as [v => v.trim()]
    does on a number. *)
Definition throwing_custom : rule :=
  mkRule Custom
    (RAFun (fun v => match v with
                     | JStr _ => Ok (JBool true)
                     | _ => Throw (JObj [("name", JStr "TypeError");
                                         ("message", JStr "v.trim is not a function")])
                     end))
    "Invalid".

Definition custom_opts : use_form_options :=
  mkOptions (Some [("count", JNum 5)]) [] []
    (Some (mkSchema false false None None None [("count", [throwing_custom])]))
    None false None.

(** ** Register *)

(** C2 (failing input): registering a field whose value is [0] replaces
    the [0] by [''], because [register] tests [!values[name]]. *)
Theorem register_overwrites_falsy_value :
  value_of (useForm age_opts) "age" = JNum 0 /\
  fst (register "age" None (useForm age_opts)) = Ok tt /\
  value_of (snd (register "age" None (useForm age_opts))) "age" = JStr "".
Proof. split; [| split]; reflexivity. Qed.

(** ** Single-field validation *)

(** C4 (failing input): with no schema and no rules, [validateField]
    reports the field valid but leaves its error in the bag. *)
Theorem validateField_no_rules_keeps_error :
  let E := env_of plain_opts in
  let s := snd (setFieldError "name" "Name is taken" (useForm plain_opts)) in
  fst (validateField E "name" None s) = Ok (true, []) /\
  getFieldError "name" (snd (validateField E "name" None s)) = JStr "Name is taken".
Proof. split; reflexivity. Qed.

(** C3 (failing input): with a Yup schema, a failure without a message
    reports the field valid but leaves the earlier ["Required"] in the
    bag. *)
Theorem validateField_yup_messageless_keeps_error :
  let E := env_of yup_opts in
  let s1 := snd (validateField E "name" None (useForm yup_opts)) in
  let s2 := snd (setFieldValue "name" (JStr "John") s1) in
  getFieldError "name" s1 = JStr "Required" /\
  fst (validateField E "name" None s2) = Ok (true, []) /\
  getFieldError "name" (snd (validateField E "name" None s2)) = JStr "Required".
Proof. split; [| split]; reflexivity. Qed.

(** ** Submission *)

(** C1 (failing input): when a rule throws during [validate], the handler
    rejects and [isSubmitting] stays [true]. *)
Theorem handleSubmit_validation_throw_leaves_submitting :
  let E := env_of custom_opts in
  let r := handleSubmit E None None (useForm custom_opts) in
  isSubmitting (useForm custom_opts) = false /\
  (exists e, fst r = Throw e) /\
  isSubmitting (snd r) = true /\
  isValidating (snd r) = true /\
  submitCount (snd r) = 1.
Proof.
  split; [reflexivity |]. split; [eexists; reflexivity |].
  repeat split; reflexivity.
Qed.

(** ** Invariants of the state monad *)

Section Preservation.
Variable P : form_state -> Prop.

(** [m] keeps [P], whether it returns or throws. *)
Definition pres {A} (m : M A) : Prop := forall s, P s -> P (snd (m s)).

Lemma pres_ret {A} (a : A) : pres (ret a).
Proof. intros s Hs; exact Hs. Qed.

Lemma pres_throw {A} (e : jsval) : pres (A := A) (throw e).
Proof. intros s Hs; exact Hs. Qed.

Lemma pres_lift {A} (r : res A) : pres (lift r).
Proof. intros s Hs; destruct r; exact Hs. Qed.

Lemma pres_gets {A} (f : form_state -> A) : pres (gets f).
Proof. intros s Hs; exact Hs. Qed.

Lemma pres_modify (f : form_state -> form_state) :
  (forall s, P s -> P (f s)) -> pres (modify f).
Proof. intros Hf s Hs; exact (Hf s Hs). Qed.

Lemma pres_bind {A B} (m : M A) (k : A -> M B) :
  pres m -> (forall a, pres (k a)) -> pres (bind m k).
Proof.
  intros Hm Hk s Hs; unfold bind.
  specialize (Hm s Hs). destruct (m s) as [[a | e] s'];
    [exact (Hk a s' Hm) | exact Hm].
Qed.

Lemma pres_read_state {A} (f : form_state -> M A) :
  (forall s0, P s0 -> pres (f s0)) -> pres (read_state f).
Proof. intros Hf s Hs; exact (Hf s Hs s Hs). Qed.

Lemma pres_for_each {A} (f : A -> M unit) (l : list A) :
  (forall x, pres (f x)) -> pres (for_each f l).
Proof.
  intros Hf; induction l as [| x l IH]; simpl;
    [apply pres_ret | apply pres_bind; [apply Hf | intros _; exact IH]].
Qed.

Lemma pres_fire_and_forget {A} (m : M A) : pres m -> pres (fire_and_forget m).
Proof. intros Hm s Hs; exact (Hm s Hs). Qed.

Lemma pres_try_catch_log (m : M unit) : pres m -> pres (try_catch_log m).
Proof.
  intros Hm s Hs; unfold try_catch_log.
  specialize (Hm s Hs); destruct (m s) as [[] s']; exact Hm.
Qed.

End Preservation.

(** One step of a preservation proof; [close] proves the goals left by
    the [modify]s. *)
Ltac pres_step close :=
  cbv beta zeta;
  match goal with
  | |- pres _ (bind _ _) => apply pres_bind; [| intro]
  | |- pres _ (read_state _) => apply pres_read_state; intros ? ?
  | |- pres _ (ret _) => apply pres_ret
  | |- pres _ (throw _) => apply pres_throw
  | |- pres _ (lift _) => apply pres_lift
  | |- pres _ (gets _) => apply pres_gets
  | |- pres _ (modify _) => apply pres_modify; let s := fresh "s" in let H := fresh "H" in
                              intros s H; close s H
  | |- pres _ (for_each _ _) => apply pres_for_each; intro
  | |- pres _ (fire_and_forget _) => apply pres_fire_and_forget
  | |- pres _ (try_catch_log _) => apply pres_try_catch_log
  | |- pres _ (js_for_each _ ?x) => unfold js_for_each; destruct x
  | |- pres _ (if ?b then _ else _) => destruct b
  | |- pres _ (match ?x with _ => _ end) => destruct x
  end.

Ltac pres_tac close := repeat pres_step close.

Section ValidationFrame.
Variable P : form_state -> Prop.
Hypothesis P_errors : forall e s, P s -> P (with_errors e s).
Hypothesis P_validating : forall b s, P s -> P (with_validating b s).

Ltac close_errors s H :=
  first [ apply P_errors; exact H | apply P_validating; exact H ].

Lemma validateField_pres : forall E n r, pres P (validateField E n r).
Proof.
  intros E n r. unfold validateField, validate_with_rules, put_error, clear_error.
  pres_tac close_errors.
Qed.

Lemma validate_rules_loop_pres : forall E entries b, pres P (validate_rules_loop E entries b).
Proof.
  intros E entries; induction entries as [| [n rs] entries IH]; intros b; simpl.
  - apply pres_ret.
  - apply pres_bind; [apply validateField_pres | intros; apply IH].
Qed.

Lemma validate_pres : forall E, pres P (validate E).
Proof.
  intros E. unfold validate, finish_invalid, push_error.
  pres_tac ltac:(fun s H => first [ apply P_errors; exact H | apply P_validating; exact H ]);
    apply validate_rules_loop_pres.
Qed.

End ValidationFrame.

(** [validate] only touches the error bag and [isValidating]. *)
Lemma validate_keeps_count_and_values : forall E s,
  submitCount (snd (validate E s)) = submitCount s /\
  heap (snd (validate E s)) = heap s /\
  values_loc (snd (validate E s)) = values_loc s /\
  isSubmitting (snd (validate E s)) = isSubmitting s.
Proof.
  intros E s.
  apply (validate_pres (fun x => submitCount x = submitCount s /\ heap x = heap s /\
                                 values_loc x = values_loc s /\
                                 isSubmitting x = isSubmitting s));
    [intros e x Hx; exact Hx | intros b x Hx; exact Hx | repeat split].
Qed.

(** C8: on a valid form, a failing [onValid]/[onSubmit] is swallowed: the
    handler resolves, the state is the one the callback left (with the
    incremented [submitCount] and the values, nothing rolled back), and
    [isSubmitting] ends [false]. *)
Theorem handleSubmit_swallows_callback_failure :
  forall opts s onValid onInvalid errs s1 cb acts e,
  let E := env_of opts in
  validate E (with_count (submitCount s + 1) (with_submitting true s)) = (Ok (true, errs), s1) ->
  match onValid with Some cb' => Some cb' | None => onSubmit E end = Some cb ->
  cb (values_obj s1) = (acts, Some e) ->
  let s2 := snd (for_each (run_action E (values_loc s1)) acts s1) in
  handleSubmit E onValid onInvalid s = (Ok tt, with_submitting false s2) /\
  submitCount s1 = submitCount s + 1 /\
  values_obj s1 = values_obj s /\
  isSubmitting (with_submitting false s2) = false /\
  (acts = [] ->
   submitCount (with_submitting false s2) = submitCount s + 1 /\
   values_obj (with_submitting false s2) = values_obj s).
Proof.
  intros opts s onValid onInvalid errs s1 cb acts e E Hval Hcb Hrun s2.
  assert (Hkeep := validate_keeps_count_and_values E
                     (with_count (submitCount s + 1) (with_submitting true s))).
  rewrite Hval in Hkeep; simpl in Hkeep. destruct Hkeep as [Hc [Hh [Hl _]]].
  assert (Hvals : values_obj s1 = values_obj s)
    by (unfold values_obj, obj_at; rewrite Hh, Hl; reflexivity).
  split; [| split; [exact Hc | split; [exact Hvals | split; [reflexivity |]]]].
  - unfold handleSubmit, bind, modify. simpl submitCount. fold E. rewrite Hval. simpl fst.
    assert (Hcall : try_catch_log (call_submit_cb E cb) s1 = (Ok tt, s2)).
    { unfold try_catch_log, call_submit_cb, read_state. rewrite Hrun.
      unfold bind at 1. subst s2.
      destruct (for_each (run_action E (values_loc s1)) acts s1) as [[[] | e'] s'];
        reflexivity. }
    destruct onValid as [cb' |].
    + injection Hcb as ->. cbn [fst]. rewrite Hcall. reflexivity.
    + rewrite Hcb. cbn [fst]. rewrite Hcall. reflexivity.
  - intros ->. subst s2. simpl. split; [exact Hc | exact Hvals].
Qed.

Definition rejecting_submit : submit_cb :=
  fun _ => ([], Some (JObj [("name", JStr "Error"); ("message", JStr "Submission error")])).

Definition rejecting_opts : use_form_options :=
  mkOptions (Some [("name", JStr "John")]) [] []
    (Some (mkSchema false false None None None
             [("name", [mkRule Required (RAVal JUndef) "Name is required"])]))
    None false (Some rejecting_submit).

Lemma handleSubmit_swallows_callback_failure_witness :
  let E := env_of rejecting_opts in
  let s := useForm rejecting_opts in
  fst (handleSubmit E None None s) = Ok tt /\
  isSubmitting (snd (handleSubmit E None None s)) = false /\
  submitCount (snd (handleSubmit E None None s)) = 1 /\
  values_obj (snd (handleSubmit E None None s)) = [("name", JStr "John")].
Proof.
  intros E s.
  destruct (handleSubmit_swallows_callback_failure rejecting_opts s None None []
              (snd (validate E (with_count (submitCount s + 1) (with_submitting true s))))
              rejecting_submit [] (JObj [("name", JStr "Error"); ("message", JStr "Submission error")])
              eq_refl eq_refl eq_refl) as [Hrun [_ [_ [Hsub Hnil]]]].
  destruct (Hnil eq_refl) as [Hcount Hvals].
  fold E in Hrun. rewrite Hrun.
  split; [reflexivity | split; [exact Hsub | split]].
  - etransitivity; [exact Hcount | reflexivity].
  - etransitivity; [exact Hvals | reflexivity].
Defined.

(** ** The values object is never the caller's [initialValues] *)

(** The invariant: location 0 still holds the construction-time initial
    values, and [values.value] (and any fresh allocation) is elsewhere. *)
Definition values_apart (io : obj) (s : form_state) : Prop :=
  heap_get (heap s) 0 = Some io /\ values_loc s <> 0%nat /\ next_loc s <> 0%nat.

Ltac close_apart s H :=
  repeat match goal with Hx : values_apart _ _ |- _ => destruct Hx as [? [? ?]] end;
  unfold values_apart, write_value, update_meta, with_heap, with_errors, with_meta,
    with_submitting, with_validating, with_count, with_rules, with_new_values; simpl;
  repeat split;
  try (rewrite heap_get_set_other by congruence);
  try match goal with
      | |- context [Nat.eqb 0 ?n] =>
          let Heq := fresh in
          destruct (Nat.eqb 0 n) eqn:Heq; [apply Nat.eqb_eq in Heq; congruence |]
      | |- context [match ?n with O => _ | S _ => _ end] =>
          destruct n eqn:?; [congruence |]
      end;
  try assumption; try discriminate.

Section Apart.
Variable io : obj.
Variable E : env.

Lemma run_ctx_op_apart : forall c, pres (values_apart io) (run_ctx_op E c).
Proof.
  intros c; destruct c; simpl;
    unfold resetForm, setErrors, setFieldError, setFieldValue, setValues, setFieldTouched,
      setTouched, put_error;
    pres_tac close_apart;
    unfold setFieldValue, setFieldTouched; pres_tac close_apart.
Qed.

Lemma call_submit_cb_apart : forall cb, pres (values_apart io) (call_submit_cb E cb).
Proof.
  intros cb. unfold call_submit_cb.
  apply pres_read_state; intros s0 H0.
  destruct (cb (values_obj s0)) as [acts thrown].
  apply pres_bind; [| intros _; destruct thrown; [apply pres_throw | apply pres_ret]].
  apply pres_for_each; intros [c | k v]; simpl.
  - apply run_ctx_op_apart.
  - apply pres_modify; intros s H. close_apart s H.
Qed.

Lemma call_invalid_cb_apart : forall cb, pres (values_apart io) (call_invalid_cb cb).
Proof.
  intros cb s H; unfold call_invalid_cb.
  destruct (cb (errors s)) as [e' [thrown |]]; exact H.
Qed.

Lemma validate_apart : pres (values_apart io) (validate E).
Proof. apply validate_pres; intros ? s H; exact H. Qed.

Lemma validateField_apart : forall n r, pres (values_apart io) (validateField E n r).
Proof. intros n r; apply validateField_pres; intros ? s H; exact H. Qed.

Lemma handleSubmit_apart : forall ov oi, pres (values_apart io) (handleSubmit E ov oi).
Proof.
  intros ov oi; unfold handleSubmit.
  apply pres_bind; [apply pres_modify; intros s H; close_apart s H | intros _].
  apply pres_bind; [apply pres_modify; intros s H; close_apart s H | intros _].
  apply pres_bind; [apply validate_apart | intros result].
  apply pres_bind; [| intros _; apply pres_modify; intros s H; close_apart s H].
  destruct (fst result).
  - apply pres_try_catch_log.
    destruct ov; [apply call_submit_cb_apart |].
    destruct (onSubmit E); [apply call_submit_cb_apart | apply pres_ret].
  - destruct oi; [apply call_invalid_cb_apart | apply pres_ret].
Qed.

Lemma run_op_apart : forall o, pres (values_apart io) (fun s => (Ok tt, run_op E o s)).
Proof.
  intros o s H; simpl.
  destruct o; simpl.
  - exact (run_ctx_op_apart (CSetFieldValue n v) s H).
  - exact (run_ctx_op_apart (CSetValues l) s H).
  - exact (run_ctx_op_apart (CSetFieldError n m) s H).
  - exact (run_ctx_op_apart (CSetErrors l) s H).
  - assert (Hp : pres (values_apart io) (setServerErrors e))
      by (unfold setServerErrors; pres_tac close_apart).
    exact (Hp s H).
  - exact (run_ctx_op_apart (CSetFieldTouched n t) s H).
  - exact (run_ctx_op_apart (CSetTouched l) s H).
  - assert (Hp : pres (values_apart io) (getFieldMeta n))
      by (unfold getFieldMeta; pres_tac close_apart).
    exact (Hp s H).
  - exact (validateField_apart n rules s H).
  - exact (validate_apart s H).
  - exact (handleSubmit_apart onValid onInvalid s H).
  - exact (handleSubmit_apart None None s H).
  - exact (run_ctx_op_apart (CResetForm ps) s H).
  - assert (Hp : pres (values_apart io) (register n o))
      by (unfold register; pres_tac close_apart).
    exact (Hp s H).
  - assert (Hp : pres (values_apart io) (onInput E n o v)); [| exact (Hp s H)].
    unfold onInput.
    apply pres_bind; [apply (run_ctx_op_apart (CSetFieldValue n v)) | intros _].
    destruct (reg_validateOn o);
      [apply pres_ret | apply pres_fire_and_forget, validateField_apart | apply pres_ret].
  - assert (Hp : pres (values_apart io) (onBlur E n o)); [| exact (Hp s H)].
    unfold onBlur.
    apply pres_bind; [apply pres_modify; intros s1 H1; close_apart s1 H1 | intros _].
    destruct (reg_validateOn o);
      [apply pres_fire_and_forget, validateField_apart | apply pres_ret | apply pres_ret].
Qed.

End Apart.

Lemma useForm_apart : forall opts,
  values_apart (initial_object opts) (useForm opts).
Proof.
  intros opts.
  assert (H0 : values_apart (initial_object opts)
                 (mkState [(0%nat, initial_object opts); (1%nat, initial_object opts)] 2 1 [] []
                    false false 0 (initial_rules (env_of opts))))
    by (repeat split; discriminate).
  assert (H1 : pres (values_apart (initial_object opts))
                 (for_each (fun '(k, v) => put_error k (JStr v)) (o_initialErrors opts)))
    by (unfold put_error; pres_tac close_apart).
  assert (H2 := run_ctx_op_apart (initial_object opts) (env_of opts)
                  (CSetTouched (o_initialTouched opts))).
  unfold useForm, setup_state.
  destruct (o_validateOnMount opts);
    [apply validate_apart |]; apply H2; apply H1; exact H0.
Qed.

Lemma reachable_apart : forall opts s,
  reachable opts s -> values_apart (initial_object opts) s.
Proof.
  intros opts s Hr; induction Hr as [| o s _ IH].
  - apply useForm_apart.
  - exact (run_op_apart (initial_object opts) (env_of opts) o s IH).
Qed.

(** ** Reset *)

(** C6: on every engine, [resetForm()] leaves a fresh values object equal
    to the construction-time initial values (never the caller's object
    itself), an empty error bag, no field meta, [submitCount = 0] and both
    flags [false]. *)
Theorem resetForm_restores_initial_state : forall opts s,
  reachable opts s ->
  let E := env_of opts in
  let s' := snd (resetForm E None s) in
  fst (resetForm E None s) = Ok tt /\
  values_obj s' = initial_object opts /\
  values_loc s' <> initialValues_loc E /\
  errors s' = [] /\
  fieldsMeta s' = [] /\
  submitCount s' = 0 /\
  isSubmitting s' = false /\
  isValidating s' = false.
Proof.
  intros opts s Hr E s'.
  destruct (reachable_apart opts s Hr) as [Hio [Hvl Hnl]].
  assert (Hsrc : obj_at s (initialValues_loc E) = initial_object opts)
    by (unfold obj_at; simpl; rewrite Hio; reflexivity).
  subst s'. unfold resetForm, read_state, bind, modify, ret. simpl option_map.
  rewrite Hsrc. simpl.
  unfold values_obj, obj_at; simpl. rewrite Nat.eqb_refl.
  repeat split; try reflexivity. exact Hnl.
Qed.

Lemma resetForm_restores_initial_state_witness :
  reachable rejecting_opts (run_op (env_of rejecting_opts) OpSubmitForm (useForm rejecting_opts)) /\
  values_obj (snd (resetForm (env_of rejecting_opts) None
                     (run_op (env_of rejecting_opts) OpSubmitForm (useForm rejecting_opts))))
    = [("name", JStr "John")].
Proof.
  assert (Hr : reachable rejecting_opts
                 (run_op (env_of rejecting_opts) OpSubmitForm (useForm rejecting_opts)))
    by (apply reach_step; apply reach_init).
  split; [exact Hr |].
  destruct (resetForm_restores_initial_state rejecting_opts _ Hr) as [_ [Hv _]].
  etransitivity; [exact Hv | reflexivity].
Defined.

(** ** Whole-form validation with a rules mapping *)

(** The verdict of the rules part of [validateField] on a value. *)
Definition rule_verdict (v : jsval) (rs : list rule) : res (bool * list jsval) :=
  match validateValue v rs with
  | Throw e => Throw e
  | Ok (Some m) => if truthy (JStr m) then Ok (false, [JStr m]) else Ok (true, [])
  | Ok None => Ok (true, [])
  end.

(** The error bag after a single-field verdict. *)
Definition bag_after (n : string) (r : res (bool * list jsval)) (l : error_bag) : error_bag :=
  match r with
  | Ok (false, ms) => prop_set n ms l
  | Ok (true, _) => prop_delete n l
  | Throw _ => l
  end.

Lemma validateField_rules_mode : forall E n rs s,
  isZodSchema E = false -> isYupSchema E = false ->
  validateField E n (Some rs) s =
  (rule_verdict (value_of s n) rs,
   with_errors (bag_after n (rule_verdict (value_of s n) rs) (errors s)) s).
Proof.
  intros E n rs s HZ HY.
  unfold validateField, read_state. rewrite HZ, HY.
  unfold validate_with_rules, rule_verdict, bind, lift, put_error, clear_error, modify, ret.
  destruct (validateValue (value_of s n) rs) as [[m |] | e]; simpl;
    [destruct (String.eqb m "") | |]; simpl; try reflexivity.
  destruct s; reflexivity.
Qed.

Lemma prop_set_absent {A} : forall k (v : A) l,
  prop_get k l = None -> prop_set k v l = (l ++ [(k, v)])%list.
Proof.
  intros k v l; induction l as [| [k' v'] l IH]; simpl; [reflexivity |].
  destruct (String.eqb k k'); [discriminate | intros H; rewrite IH by exact H; reflexivity].
Qed.

Lemma prop_delete_absent {A} : forall k (l : list (string * A)),
  prop_get k l = None -> prop_delete k l = l.
Proof.
  intros k l; induction l as [| [k' v'] l IH]; simpl; [reflexivity |].
  destruct (String.eqb k k'); [discriminate | intros H; rewrite IH by exact H; reflexivity].
Qed.

Lemma prop_get_app_other {A} : forall k k' (v : A) l,
  k <> k' -> prop_get k (l ++ [(k', v)])%list = prop_get k l.
Proof.
  intros k k' v l Hne; induction l as [| [k0 v0] l IH]; simpl.
  - destruct (String.eqb k k') eqn:E; [apply String.eqb_eq in E; congruence | reflexivity].
  - destruct (String.eqb k k0); [reflexivity | exact IH].
Qed.

Lemma with_errors_twice : forall e e' s, with_errors e (with_errors e' s) = with_errors e s.
Proof. reflexivity. Qed.

Lemma value_of_with_errors : forall e s, value_of (with_errors e s) = value_of s.
Proof. reflexivity. Qed.

Definition verdict_ok (r : res (bool * list jsval)) : bool :=
  match r with Ok (true, _) => true | _ => false end.

(** The bag entries of the failing fields, in the order of the rules. *)
Definition failing_entries (s : form_state) (entries : list (string * list rule)) : error_bag :=
  flat_map (fun '(n, rs) =>
    match rule_verdict (value_of s n) rs with
    | Ok (false, ms) => [(n, ms)]
    | _ => []
    end) entries.

Lemma validate_rules_loop_spec : forall E entries s isValid,
  isZodSchema E = false -> isYupSchema E = false ->
  NoDup (map fst entries) ->
  (forall n, In n (map fst entries) -> prop_get n (errors s) = None) ->
  (forall n rs, In (n, rs) entries -> exists r, rule_verdict (value_of s n) rs = Ok r) ->
  validate_rules_loop E entries isValid s =
  (Ok (isValid && forallb (fun '(n, rs) => verdict_ok (rule_verdict (value_of s n) rs)) entries)%bool,
   with_errors (errors s ++ failing_entries s entries)%list s).
Proof.
  intros E entries; induction entries as [| [n rs] entries IH];
    intros s isValid HZ HY Hnd Habs Hok.
  - simpl. rewrite andb_true_r, app_nil_r. destruct s; reflexivity.
  - inversion Hnd as [| ? ? Hnin Hnd']; subst.
    destruct (Hok n rs (or_introl eq_refl)) as [[b ms] Hv].
    simpl validate_rules_loop. unfold bind.
    rewrite validateField_rules_mode by assumption. rewrite Hv.
    assert (Hn : prop_get n (errors s) = None) by (apply Habs; left; reflexivity).
    set (s' := with_errors (bag_after n (Ok (b, ms)) (errors s)) s).
    assert (Hval : forall k, value_of s' k = value_of s k) by reflexivity.
    rewrite IH.
    + subst s'. unfold failing_entries. rewrite value_of_with_errors.
      cbn [forallb flat_map]. rewrite Hv.
      destruct b; simpl bag_after.
      * rewrite prop_delete_absent by exact Hn. reflexivity.
      * rewrite prop_set_absent by exact Hn. simpl errors. simpl fst.
        rewrite <- app_assoc. destruct isValid; reflexivity.
    + exact HZ.
    + exact HY.
    + exact Hnd'.
    + intros k Hk. subst s'. simpl.
      assert (k <> n) by (intro; subst; contradiction).
      destruct b; simpl.
      * rewrite prop_delete_absent by exact Hn. apply Habs; right; exact Hk.
      * rewrite prop_set_absent by exact Hn. rewrite prop_get_app_other by assumption.
        apply Habs; right; exact Hk.
    + intros k rs' Hin. rewrite Hval. apply Hok; right; exact Hin.
Qed.

Lemma forallb_ext_in {A} : forall (f g : A -> bool) l,
  (forall x, f x = g x) -> forallb f l = forallb g l.
Proof. intros f g l H; induction l; simpl; [reflexivity | rewrite H, IHl; reflexivity]. Qed.

Lemma flat_map_ext_in {A B} : forall (f g : A -> list B) l,
  (forall x, f x = g x) -> flat_map f l = flat_map g l.
Proof. intros f g l H; induction l; simpl; [reflexivity | rewrite H, IHl; reflexivity]. Qed.

Lemma rule_verdict_invalid_single : forall v rs ms,
  rule_verdict v rs = Ok (false, ms) -> exists m, ms = [m].
Proof.
  intros v rs ms; unfold rule_verdict.
  destruct (validateValue v rs) as [[m |] | e]; try discriminate.
  destruct (truthy (JStr m)); intros H; inversion H; eauto.
Qed.

Lemma simple_errors_failing : forall s entries,
  simple_errors (failing_entries s entries) =
  flat_map (fun '(n, rs) =>
    match rule_verdict (value_of s n) rs with
    | Ok (false, m :: _) => [(n, m)]
    | _ => []
    end) entries.
Proof.
  intros s entries; induction entries as [| [n rs] entries IH]; [reflexivity |].
  unfold failing_entries in *. cbn [flat_map].
  unfold simple_errors in *. rewrite map_app, IH. f_equal.
  destruct (rule_verdict (value_of s n) rs) as [[[|] ms] | e] eqn:Hv; try reflexivity.
  destruct (rule_verdict_invalid_single _ _ _ Hv) as [m ->]. reflexivity.
Qed.

(** C7: with a rules mapping, [validate()] runs [validateField] for every
    field that has a rule list, going on after a failing field; it returns
    [valid] exactly when every one of them is valid, and maps each failing
    field to the first message of its (single-message) bag entry. *)
Theorem validate_rules_checks_every_field : forall E s,
  isZodSchema E = false -> isYupSchema E = false ->
  NoDup (map fst (fieldRules s)) ->
  (forall n rs, In (n, rs) (fieldRules s) ->
     exists r, fst (validateField E n (Some rs) s) = Ok r) ->
  fst (validate E s) =
    Ok (forallb (fun '(n, rs) => verdict_ok (fst (validateField E n (Some rs) s)))
          (fieldRules s),
        flat_map (fun '(n, rs) =>
          match fst (validateField E n (Some rs) s) with
          | Ok (false, m :: _) => [(n, m)]
          | _ => []
          end) (fieldRules s)) /\
  errors (snd (validate E s)) =
    flat_map (fun '(n, rs) =>
      match fst (validateField E n (Some rs) s) with
      | Ok (false, ms) => [(n, ms)]
      | _ => []
      end) (fieldRules s) /\
  isValidating (snd (validate E s)) = false.
Proof.
  intros E s HZ HY Hnd Hok.
  assert (Hvf : forall n rs,
             fst (validateField E n (Some rs) s) = rule_verdict (value_of s n) rs)
    by (intros n rs; rewrite validateField_rules_mode by assumption; reflexivity).
  set (s0 := with_errors [] (with_validating true s)).
  assert (Hloop := validate_rules_loop_spec E (fieldRules s) s0 true HZ HY Hnd
                     (fun n _ => eq_refl)
                     (fun n rs Hin => match Hok n rs Hin with
                                      | ex_intro _ r Hr => ex_intro _ r (eq_trans (eq_sym (Hvf n rs)) Hr)
                                      end)).
  assert (Hv : validate E s =
               (Ok (true && forallb (fun '(n, rs) => verdict_ok (rule_verdict (value_of s0 n) rs))
                              (fieldRules s),
                    simple_errors (failing_entries s0 (fieldRules s))),
                with_validating false
                  (with_errors ([] ++ failing_entries s0 (fieldRules s))%list s0))).
  { unfold validate, bind, modify, read_state. fold s0. rewrite HZ, HY.
    change (fieldRules s0) with (fieldRules s). rewrite Hloop. reflexivity. }
  rewrite Hv. simpl.
  rewrite simple_errors_failing.
  split; [| split; [| reflexivity]].
  - f_equal. f_equal.
    + apply forallb_ext_in. intros [n rs]. rewrite Hvf. reflexivity.
    + apply flat_map_ext_in. intros [n rs]. rewrite Hvf. reflexivity.
  - unfold failing_entries. apply flat_map_ext_in. intros [n rs]. rewrite Hvf. reflexivity.
Qed.

Definition two_field_opts : use_form_options :=
  mkOptions (Some [("name", JStr ""); ("email", JStr "not-an-email")]) [] []
    (Some (mkSchema false false None None None
             [("name", [mkRule Required (RAVal JUndef) "Name is required"]);
              ("email", [mkRule Email (RAVal JUndef) "Invalid email"])]))
    None false None.

Lemma validate_rules_checks_every_field_witness :
  fst (validate (env_of two_field_opts) (useForm two_field_opts)) =
    Ok (false, [("name", JStr "Name is required"); ("email", JStr "Invalid email")]).
Proof.
  destruct (validate_rules_checks_every_field (env_of two_field_opts) (useForm two_field_opts)
              eq_refl eq_refl) as [H _].
  - repeat constructor; simpl; intuition discriminate.
  - intros n rs Hin. vm_compute in Hin.
    destruct Hin as [Hin | [Hin | []]]; injection Hin as <- <-; eexists; vm_compute; reflexivity.
  - rewrite H. vm_compute. reflexivity.
Defined.

(** ** Supporting facts on the failure paths *)

(** The Zod branch of [validateField] fails open: a failure object with
    neither an [issues] nor an [errors] list clears the field's error and
    reports it valid. *)
Lemma validateField_zod_unrecognised_failure_clears : forall E n r s err,
  isZodSchema E = true ->
  zod_parse E (values_obj s) = Throw (JObj err) ->
  truthy (match prop_get "issues" err with Some x => x | None => JUndef end) = false ->
  truthy (match prop_get "errors" err with Some x => x | None => JUndef end) = false ->
  validateField E n r s = (Ok (true, []), with_errors (prop_delete n (errors s)) s).
Proof.
  intros E n r s err HZ Hp Hi He.
  unfold validateField, read_state. rewrite HZ, Hp.
  unfold zod_issues, bind, lift, clear_error, modify, ret; simpl.
  rewrite Hi. simpl. rewrite He. reflexivity.
Qed.

(** A handler that resolves has cleared [isSubmitting]. *)
Lemma handleSubmit_resolved_not_submitting : forall E ov oi s,
  fst (handleSubmit E ov oi s) = Ok tt ->
  isSubmitting (snd (handleSubmit E ov oi s)) = false.
Proof.
  intros E ov oi s.
  unfold handleSubmit, bind, modify.
  destruct (validate E _) as [[result | e] s1]; [| discriminate].
  match goal with
  | |- context [match ?m s1 with _ => _ end] => destruct (m s1) as [[] s2]
  end; [reflexivity | discriminate].
Qed.

(** * Further properties of the engine's operations *)

Lemma prop_get_set_other {A} : forall k k' (v : A) l,
  k <> k' -> prop_get k (prop_set k' v l) = prop_get k l.
Proof.
  intros k k' v l Hne; induction l as [| [k0 v0] l IH]; simpl.
  - destruct (String.eqb k k') eqn:E; [apply String.eqb_eq in E; congruence | reflexivity].
  - destruct (String.eqb k' k0) eqn:E0; simpl.
    + apply String.eqb_eq in E0; subst k0.
      destruct (String.eqb k k') eqn:E; [apply String.eqb_eq in E; congruence | reflexivity].
    + destruct (String.eqb k k0); [reflexivity | exact IH].
Qed.

Lemma prop_get_cons_neq {A} : forall k k0 (v0 : A) l,
  k <> k0 -> prop_get k ((k0, v0) :: l) = prop_get k l.
Proof.
  intros k k0 v0 l Hne; simpl.
  destruct (String.eqb k k0) eqn:E; [apply String.eqb_eq in E; congruence | reflexivity].
Qed.

Lemma prop_get_cons_eq {A} : forall k (v0 : A) l, prop_get k ((k, v0) :: l) = Some v0.
Proof. intros; simpl; rewrite String.eqb_refl; reflexivity. Qed.

Lemma prop_get_none_of_nodup {A} : forall k (v : A) (l : list (string * A)),
  NoDup (map fst ((k, v) :: l)) -> prop_get k l = None.
Proof.
  intros k v l Hnd; inversion Hnd as [| ? ? Hnin _]; subst.
  clear Hnd; induction l as [| [k1 v1] l IH]; [reflexivity |].
  simpl in Hnin. rewrite prop_get_cons_neq by (intro; subst; tauto).
  apply IH; tauto.
Qed.

Lemma value_of_write_value : forall s k k' v,
  value_of (write_value k' v s) k =
  if String.eqb k k' then v else value_of s k.
Proof.
  intros s k k' v. unfold value_of, values_obj, obj_at, write_value, with_heap; simpl.
  rewrite heap_get_set_same.
  destruct (String.eqb k k') eqn:E.
  - apply String.eqb_eq in E; subst. rewrite prop_get_set_same; reflexivity.
  - rewrite prop_get_set_other by (intro; subst; rewrite String.eqb_refl in E; discriminate).
    reflexivity.
Qed.

(** ** [setServerErrors] *)

(** X1: [setServerErrors(se)] overwrites exactly the fields named in [se]
    with their message lists and leaves every other field's entry as it
    was; values and field meta are untouched. *)
Theorem setServerErrors_merges : forall se s,
  NoDup (map fst se) ->
  let s' := snd (setServerErrors se s) in
  (forall k, prop_get k (errors s') =
             match prop_get k se with Some l => Some l | None => prop_get k (errors s) end) /\
  heap s' = heap s /\ values_loc s' = values_loc s /\ fieldsMeta s' = fieldsMeta s.
Proof.
  intros se s Hnd s'. subst s'. simpl. split; [| repeat split].
  intros k. generalize (errors s). induction se as [| [k0 l0] se IH]; intros b; [reflexivity |].
  simpl fold_left. rewrite IH by (inversion Hnd; assumption).
  destruct (String.eqb k k0) eqn:E.
  - apply String.eqb_eq in E; subst k0.
    rewrite (prop_get_none_of_nodup k l0 se Hnd), prop_get_cons_eq, prop_get_set_same.
    reflexivity.
  - assert (k <> k0) by (intro; subst; rewrite String.eqb_refl in E; discriminate).
    rewrite prop_get_cons_neq, prop_get_set_other by assumption. reflexivity.
Qed.

Lemma setServerErrors_merges_witness :
  NoDup (map fst [("email", [JStr "Email already taken"])]) /\
  getFieldError "email"
    (snd (setServerErrors [("email", [JStr "Email already taken"])] (useForm plain_opts)))
  = JStr "Email already taken".
Proof.
  assert (Hnd : NoDup (map fst [("email", [JStr "Email already taken"])]))
    by (repeat constructor; simpl; tauto).
  split; [exact Hnd |].
  destruct (setServerErrors_merges [("email", [JStr "Email already taken"])]
              (useForm plain_opts) Hnd) as [Hget _].
  unfold getFieldError. rewrite Hget. reflexivity.
Defined.

(** ** [setErrors] and [setFieldError] *)

(** X2: after [setErrors(fields)] every named field's entry is the single
    message given for it, every other entry is unchanged, and values and
    field meta are untouched. *)
Theorem setErrors_sets_single_messages : forall fields s,
  NoDup (map fst fields) ->
  let s' := snd (setErrors fields s) in
  (forall k, prop_get k (errors s') =
             match prop_get k fields with
             | Some m => Some [JStr m]
             | None => prop_get k (errors s)
             end) /\
  heap s' = heap s /\ values_loc s' = values_loc s /\ fieldsMeta s' = fieldsMeta s.
Proof.
  intros fields s Hnd s'. subst s'.
  revert s; induction fields as [| [k0 m0] fields IH]; intros s.
  - simpl. repeat split.
  - inversion Hnd as [| ? ? _ Hnd']; subst.
    change (snd (setErrors ((k0, m0) :: fields) s))
      with (snd (setErrors fields (with_errors (prop_set k0 [JStr m0] (errors s)) s))).
    destruct (IH Hnd' (with_errors (prop_set k0 [JStr m0] (errors s)) s))
      as [Hget [Hh [Hl Hm]]].
    split; [| rewrite Hh, Hl, Hm; repeat split].
    intros k. rewrite Hget. simpl errors.
    destruct (String.eqb k k0) eqn:E.
    + apply String.eqb_eq in E; subst k0.
      rewrite (prop_get_none_of_nodup k m0 fields Hnd), prop_get_cons_eq, prop_get_set_same.
      reflexivity.
    + assert (k <> k0) by (intro; subst; rewrite String.eqb_refl in E; discriminate).
      rewrite prop_get_cons_neq, prop_get_set_other by assumption. reflexivity.
Qed.

Lemma setErrors_sets_single_messages_witness :
  NoDup (map fst [("name", "Required"); ("email", "Invalid")]) /\
  getFieldError "email"
    (snd (setErrors [("name", "Required"); ("email", "Invalid")] (useForm plain_opts)))
  = JStr "Invalid".
Proof.
  assert (Hnd : NoDup (map fst [("name", "Required"); ("email", "Invalid")]))
    by (repeat constructor; simpl; intuition discriminate).
  split; [exact Hnd |].
  destruct (setErrors_sets_single_messages _ (useForm plain_opts) Hnd) as [Hget _].
  unfold getFieldError. rewrite Hget. reflexivity.
Defined.

(** ** [setValues] *)

Lemma fieldsMeta_update_meta : forall n mk f s k,
  prop_get k (fieldsMeta (update_meta n mk f s)) =
  if String.eqb k n
  then Some (f match prop_get n (fieldsMeta s) with Some m => m | None => mk end)
  else prop_get k (fieldsMeta s).
Proof.
  intros n mk f s k. unfold update_meta, with_meta; simpl.
  destruct (String.eqb k n) eqn:E.
  - apply String.eqb_eq in E; subst. apply prop_get_set_same.
  - apply prop_get_set_other. intro; subst; rewrite String.eqb_refl in E; discriminate.
Qed.

(** X3: after [setValues(fields)] every named field holds its new value
    and has a meta with [dirty = true]; every other field keeps its value
    and its meta; the error bag is untouched. *)
Theorem setValues_writes_each_field : forall fields s,
  NoDup (map fst fields) ->
  let s' := snd (setValues fields s) in
  (forall k,
     value_of s' k = match prop_get k fields with Some v => v | None => value_of s k end /\
     match prop_get k fields with
     | Some _ => exists m, prop_get k (fieldsMeta s') = Some m /\ dirty m = true
     | None => prop_get k (fieldsMeta s') = prop_get k (fieldsMeta s)
     end) /\
  errors s' = errors s.
Proof.
  intros fields s Hnd s'. subst s'.
  revert s; induction fields as [| [k0 v0] fields IH]; intros s.
  - simpl. split; [intros k; split; reflexivity | reflexivity].
  - inversion Hnd as [| ? ? _ Hnd']; subst.
    set (s1 := update_meta k0 (new_meta false) set_dirty (write_value k0 v0 s)).
    change (snd (setValues ((k0, v0) :: fields) s)) with (snd (setValues fields s1)).
    destruct (IH Hnd' s1) as [Hk He].
    split; [| rewrite He; reflexivity].
    intros k. destruct (Hk k) as [Hv Hm].
    assert (Hv1 : value_of s1 k = if String.eqb k k0 then v0 else value_of s k)
      by (subst s1; rewrite <- value_of_write_value; reflexivity).
    assert (Hm1 : prop_get k (fieldsMeta s1) =
                  if String.eqb k k0
                  then Some (set_dirty match prop_get k0 (fieldsMeta s) with
                                       | Some m => m | None => new_meta false end)
                  else prop_get k (fieldsMeta s))
      by (subst s1; rewrite fieldsMeta_update_meta; reflexivity).
    destruct (String.eqb k k0) eqn:E.
    + apply String.eqb_eq in E; subst k0.
      rewrite (prop_get_none_of_nodup k v0 fields Hnd) in Hv, Hm.
      rewrite prop_get_cons_eq. rewrite Hv, Hv1. split; [reflexivity |].
      rewrite Hm, Hm1. eexists; split; reflexivity.
    + assert (k <> k0) by (intro; subst; rewrite String.eqb_refl in E; discriminate).
      rewrite prop_get_cons_neq by assumption.
      rewrite Hv, Hv1. split; [reflexivity |].
      destruct (prop_get k fields); [exact Hm | rewrite Hm; exact Hm1].
Qed.

Lemma setValues_writes_each_field_witness :
  NoDup (map fst [("name", JStr "Jane"); ("age", JNum 30)]) /\
  value_of (snd (setValues [("name", JStr "Jane"); ("age", JNum 30)] (useForm plain_opts))) "age"
  = JNum 30.
Proof.
  assert (Hnd : NoDup (map fst [("name", JStr "Jane"); ("age", JNum 30)]))
    by (repeat constructor; simpl; intuition discriminate).
  split; [exact Hnd |].
  destruct (setValues_writes_each_field _ (useForm plain_opts) Hnd) as [Hk _].
  destruct (Hk "age") as [Hv _]. rewrite Hv. reflexivity.
Defined.

(** ** [setFieldTouched] and [getFieldMeta] *)


(** X5: [getFieldMeta(n)] returns the field's stored meta, refreshed so
    that [error] is [getFieldError(n)] and [valid] is [!error]; touched and
    dirty are kept, and the error bag is untouched. *)
Theorem getFieldMeta_refreshes_error : forall n s,
  let r := getFieldMeta n s in
  exists m, fst r = Ok m /\ prop_get n (fieldsMeta (snd r)) = Some m /\
    error m = getFieldError n s /\ valid m = negb (truthy (getFieldError n s)) /\
    touched m = match prop_get n (fieldsMeta s) with Some m0 => touched m0 | None => false end /\
    dirty m = match prop_get n (fieldsMeta s) with Some m0 => dirty m0 | None => false end /\
    errors (snd r) = errors s.
Proof.
  intros n s r. subst r. unfold getFieldMeta, bind, modify, gets. cbn [fst snd].
  unfold update_meta, with_meta; cbn [fieldsMeta errors]. rewrite prop_get_set_same.
  eexists; split; [reflexivity |]. split; [reflexivity |].
  destruct (prop_get n (fieldsMeta s)); simpl; repeat split.
Qed.

(** ** [register] *)

Lemma register_default_value : forall name s1,
  let s' := snd ((if negb (truthy (value_of s1 name))
                  then modify (write_value name (JStr "")) else ret tt) s1) in
  value_of s' name = (if truthy (value_of s1 name) then value_of s1 name else JStr "") /\
  (forall k, k <> name -> value_of s' k = value_of s1 k) /\
  errors s' = errors s1 /\ fieldsMeta s' = fieldsMeta s1 /\ fieldRules s' = fieldRules s1.
Proof.
  intros name s1 s'. subst s'.
  destruct (truthy (value_of s1 name)) eqn:Ht; cbn [negb]; unfold modify, ret; cbn [snd].
  - repeat split; reflexivity.
  - rewrite value_of_write_value, String.eqb_refl.
    repeat split; try reflexivity.
    intros k Hk. rewrite value_of_write_value.
    destruct (String.eqb k name) eqn:E; [apply String.eqb_eq in E; congruence | reflexivity].
Qed.

(** X6: [register(name, options)] keeps a truthy value and turns a falsy
    one ([undefined], [null], [0], [false], ['']) into [''], stores the
    given rule list as the field's rules, and touches neither the error
    bag nor the field meta. *)
Theorem register_effect : forall name o s,
  let s' := snd (register name o s) in
  value_of s' name = (if truthy (value_of s name) then value_of s name else JStr "") /\
  (forall k, k <> name -> value_of s' k = value_of s k) /\
  prop_get name (fieldRules s') =
    match reg_rules o with Some rs => Some rs | None => prop_get name (fieldRules s) end /\
  errors s' = errors s /\ fieldsMeta s' = fieldsMeta s.
Proof.
  intros name o s s'. subst s'. unfold register, bind, read_state.
  destruct (reg_rules o) as [rs |]; unfold modify, ret.
  - destruct (register_default_value name (with_rules (prop_set name rs (fieldRules s)) s))
      as (H1 & H2 & H3 & H4 & H5).
    repeat split; [exact H1 | exact H2 | | exact H3 | exact H4].
    rewrite <- (prop_get_set_same name rs (fieldRules s)). exact (f_equal (prop_get name) H5).
  - destruct (register_default_value name s) as (H1 & H2 & H3 & H4 & H5).
    repeat split; [exact H1 | exact H2 | exact (f_equal (prop_get name) H5) | exact H3 | exact H4].
Qed.

(** ** What validation leaves alone *)

Lemma validateField_keeps : forall E n r s,
  let s' := snd (validateField E n r s) in
  heap s' = heap s /\ next_loc s' = next_loc s /\ values_loc s' = values_loc s /\
  fieldsMeta s' = fieldsMeta s /\ isSubmitting s' = isSubmitting s /\
  isValidating s' = isValidating s /\ submitCount s' = submitCount s /\
  fieldRules s' = fieldRules s.
Proof.
  intros E n r s.
  assert (Hp : pres (fun x => heap x = heap s /\ next_loc x = next_loc s /\
                              values_loc x = values_loc s /\ fieldsMeta x = fieldsMeta s /\
                              isSubmitting x = isSubmitting s /\
                              isValidating x = isValidating s /\
                              submitCount x = submitCount s /\ fieldRules x = fieldRules s)
                    (validateField E n r)).
  { unfold validateField, validate_with_rules, put_error, clear_error.
    pres_tac ltac:(fun x H => exact H). }
  apply Hp. repeat split.
Qed.

Lemma validate_keeps : forall E s,
  let s' := snd (validate E s) in
  heap s' = heap s /\ next_loc s' = next_loc s /\ values_loc s' = values_loc s /\
  fieldsMeta s' = fieldsMeta s /\ isSubmitting s' = isSubmitting s /\
  submitCount s' = submitCount s /\ fieldRules s' = fieldRules s.
Proof.
  intros E s.
  apply (validate_pres (fun x => heap x = heap s /\ next_loc x = next_loc s /\
                                 values_loc x = values_loc s /\ fieldsMeta x = fieldsMeta s /\
                                 isSubmitting x = isSubmitting s /\
                                 submitCount x = submitCount s /\ fieldRules x = fieldRules s));
    [intros e x Hx; exact Hx | intros b x Hx; exact Hx | repeat split].
Qed.

(** X7: [validateField] changes nothing but the error bag, whether it
    resolves or rejects: values, field meta, rules, [submitCount],
    [isSubmitting] and [isValidating] are as before. *)
Theorem validateField_only_touches_errors : forall E n r s,
  snd (validateField E n r s) = with_errors (errors (snd (validateField E n r s))) s.
Proof.
  intros E n r s.
  destruct (validateField_keeps E n r s) as (H1 & H2 & H3 & H4 & H5 & H6 & H7 & H8).
  destruct (snd (validateField E n r s)); simpl in *; subst; reflexivity.
Qed.

(** X8: [validate] changes nothing but the error bag and [isValidating],
    whether it resolves or rejects. *)
Theorem validate_only_touches_errors_and_flag : forall E s,
  snd (validate E s) =
  with_validating (isValidating (snd (validate E s)))
    (with_errors (errors (snd (validate E s))) s).
Proof.
  intros E s.
  destruct (validate_keeps E s) as (H1 & H2 & H3 & H4 & H5 & H6 & H7).
  destruct (snd (validate E s)); simpl in *; subst; reflexivity.
Qed.

(** The result and state after [m], when it resolves. *)
Definition ok_post {A} (Q : A -> form_state -> Prop) (m : M A) : Prop :=
  forall s, match m s with (Ok a, s') => Q a s' | (Throw _, _) => True end.

Lemma ok_post_bind {A B} (Q : B -> form_state -> Prop) (m : M A) (k : A -> M B) :
  (forall a, ok_post Q (k a)) -> ok_post Q (bind m k).
Proof.
  intros Hk s; unfold bind. destruct (m s) as [[a | e] s']; [apply Hk | exact I].
Qed.

Lemma ok_post_read_state {A} (Q : A -> form_state -> Prop) (f : form_state -> M A) :
  (forall s0, ok_post Q (f s0)) -> ok_post Q (read_state f).
Proof. intros Hf s; exact (Hf s s). Qed.

Lemma ok_post_modify_ret {A} (Q : A -> form_state -> Prop) f (a : A) :
  (forall s, Q a (f s)) -> ok_post Q (modify f ;;; ret a).
Proof. intros H s; exact (H s). Qed.

Lemma ok_post_modify_gets_ret {A} (Q : A -> form_state -> Prop) f (g : error_bag -> A) :
  (forall s, Q (g (errors (f s))) (f s)) -> ok_post Q (modify f ;;; e <- gets errors ;; ret (g e)).
Proof. intros H s; exact (H s). Qed.

Lemma finish_invalid_post (Q : bool * list (string * jsval) -> form_state -> Prop) :
  (forall s, Q (false, simple_errors (errors s)) (with_validating false s)) ->
  ok_post Q finish_invalid.
Proof. intros H s; exact (H (s)). Qed.

(** X9: whenever [validate()] resolves, [isValidating] is [false] again
    (on every branch: schema success, schema failure, rules loop). *)
Theorem validate_resolved_not_validating : forall E s r,
  fst (validate E s) = Ok r -> isValidating (snd (validate E s)) = false.
Proof.
  intros E s r.
  assert (Hp : ok_post (fun _ s' => isValidating s' = false) (validate E)).
  { unfold validate.
    apply ok_post_bind; intros _. apply ok_post_bind; intros _.
    apply ok_post_read_state; intros s0.
    destruct (isZodSchema E); [| destruct (isYupSchema E)];
      [destruct (zod_parse E (values_obj s0)) | destruct (yup_validate E (values_obj s0)) |];
      repeat (first [ apply ok_post_modify_ret; reflexivity
                    | apply ok_post_modify_gets_ret; reflexivity
                    | apply finish_invalid_post; reflexivity
                    | apply ok_post_bind; intros ? ]). }
  specialize (Hp s). destruct (validate E s) as [[a | e] s']; simpl; [intros _; exact Hp | discriminate].
Qed.

Lemma validate_resolved_not_validating_witness :
  fst (validate (env_of two_field_opts) (useForm two_field_opts)) =
    Ok (false, [("name", JStr "Name is required"); ("email", JStr "Invalid email")]) /\
  isValidating (snd (validate (env_of two_field_opts) (useForm two_field_opts))) = false.
Proof.
  assert (H : fst (validate (env_of two_field_opts) (useForm two_field_opts)) =
              Ok (false, [("name", JStr "Name is required"); ("email", JStr "Invalid email")])) by (vm_compute; reflexivity).
  split; [exact H | exact (validate_resolved_not_validating _ _ _ H)].
Defined.

Lemma bind_modify {B} : forall f (k : unit -> M B) s, bind (modify f) k s = k tt (f s).
Proof. reflexivity. Qed.


Lemma bind_ok {A B} : forall (m : M A) (k : A -> M B) s a,
  fst (m s) = Ok a -> bind m k s = k a (snd (m s)).
Proof. intros m k s a H; unfold bind; destruct (m s) as [r s']; simpl in H; subst r; reflexivity. Qed.




(** ** The callbacks of [register] *)

Lemma value_of_same_store : forall s s' k,
  heap s' = heap s -> values_loc s' = values_loc s -> value_of s' k = value_of s k.
Proof.
  intros s s' k Hh Hl. unfold value_of, values_obj, obj_at. rewrite Hh, Hl. reflexivity.
Qed.

(** X11: [onBlur] marks the field touched (keeping its [dirty] flag) and
    changes no value; unless the field validates on blur, the error bag is
    untouched as well. *)
Theorem onBlur_marks_touched : forall E n o s,
  let s' := snd (onBlur E n o s) in
  (exists m, prop_get n (fieldsMeta s') = Some m /\ touched m = true /\
     dirty m = match prop_get n (fieldsMeta s) with Some m0 => dirty m0 | None => false end) /\
  heap s' = heap s /\ values_loc s' = values_loc s /\ submitCount s' = submitCount s /\
  match reg_validateOn o with OnBlur => True | _ => errors s' = errors s end.
Proof.
  intros E n o s s'. subst s'. unfold onBlur. rewrite bind_modify.
  set (s1 := update_meta n (new_meta false) (set_touched true) s).
  assert (Hm : prop_get n (fieldsMeta s1) =
               Some (set_touched true match prop_get n (fieldsMeta s) with
                                      | Some m => m | None => new_meta false end))
    by (subst s1; rewrite fieldsMeta_update_meta, String.eqb_refl; reflexivity).
  assert (Hmeta : exists m, prop_get n (fieldsMeta s1) = Some m /\ touched m = true /\
     dirty m = match prop_get n (fieldsMeta s) with Some m0 => dirty m0 | None => false end)
    by (rewrite Hm; eexists; split; [reflexivity |];
        destruct (prop_get n (fieldsMeta s)); split; reflexivity).
  destruct (reg_validateOn o); unfold fire_and_forget, ret; cbn [snd].
  - destruct (validateField_keeps E n (reg_rules o) s1) as (H1 & _ & H3 & H4 & _ & _ & H7 & _).
    rewrite H1, H3, H4, H7. split; [exact Hmeta | repeat split].
  - split; [exact Hmeta | repeat split].
  - split; [exact Hmeta | repeat split].
Qed.

(** X12: [onInput(v)] stores [v] under the field, marks it dirty and
    changes no other value; unless the field validates on change, the
    error bag is untouched as well. *)
Theorem onInput_sets_value : forall E n o v s,
  let s' := snd (onInput E n o v s) in
  value_of s' n = v /\ (forall k, k <> n -> value_of s' k = value_of s k) /\
  (exists m, prop_get n (fieldsMeta s') = Some m /\ dirty m = true) /\
  match reg_validateOn o with OnChange => True | _ => errors s' = errors s end.
Proof.
  intros E n o v s s'. subst s'. unfold onInput, setFieldValue. rewrite bind_modify.
  set (s1 := update_meta n (new_meta false) set_dirty (write_value n v s)).
  assert (Hv : forall k, value_of s1 k = if String.eqb k n then v else value_of s k)
    by (intros k; subst s1; rewrite <- value_of_write_value; reflexivity).
  assert (Hmeta : exists m, prop_get n (fieldsMeta s1) = Some m /\ dirty m = true)
    by (subst s1; rewrite fieldsMeta_update_meta, String.eqb_refl; eexists; split; reflexivity).
  assert (Hrest : forall s2, heap s2 = heap s1 -> values_loc s2 = values_loc s1 ->
            value_of s2 n = v /\ (forall k, k <> n -> value_of s2 k = value_of s k)).
  { intros s2 Hh Hl. rewrite !(value_of_same_store s1 s2) by assumption.
    rewrite Hv, String.eqb_refl. split; [reflexivity |].
    intros k Hk. rewrite (value_of_same_store s1 s2 k Hh Hl), Hv.
    destruct (String.eqb k n) eqn:E0; [apply String.eqb_eq in E0; congruence | reflexivity]. }
  destruct (reg_validateOn o); unfold fire_and_forget, ret; cbn [snd].
  - destruct (Hrest s1 eq_refl eq_refl) as [Ha Hb].
    exact (conj Ha (conj Hb (conj Hmeta eq_refl))).
  - destruct (validateField_keeps E n (reg_rules o) s1) as (H1 & _ & H3 & H4 & _).
    destruct (Hrest _ H1 H3) as [Ha Hb].
    rewrite H4. exact (conj Ha (conj Hb (conj Hmeta I))).
  - destruct (Hrest s1 eq_refl eq_refl) as [Ha Hb].
    exact (conj Ha (conj Hb (conj Hmeta eq_refl))).
Qed.

Lemma onInput_sets_value_witness :
  value_of (snd (onInput (env_of plain_opts) "name" None (JStr "Jane") (useForm plain_opts)))
    "name" = JStr "Jane".
Proof. exact (proj1 (onInput_sets_value (env_of plain_opts) "name" None (JStr "Jane")
                      (useForm plain_opts))).
Defined.


Lemma register_effect_witness :
  value_of (snd (register "age" None (useForm age_opts))) "age" = JStr "".
Proof.
  etransitivity; [exact (proj1 (register_effect "age" None (useForm age_opts))) |].
  vm_compute. reflexivity.
Defined.

(** ** Submission counting *)

(** A callback action that resets the form (and so its [submitCount]). *)
Definition resets_form (a : cb_action) : bool :=
  match a with ACtx (CResetForm _) => true | _ => false end.

Lemma pres_for_each_in {A} (P : form_state -> Prop) (f : A -> M unit) (l : list A) :
  (forall x, In x l -> pres P (f x)) -> pres P (for_each f l).
Proof.
  induction l as [| x l IH]; intros Hf; simpl; [apply pres_ret |].
  apply pres_bind; [apply Hf; left; reflexivity | intros _; apply IH; intros y Hy; apply Hf; right; exact Hy].
Qed.

Lemma run_action_keeps_count : forall E d a c,
  resets_form a = false -> pres (fun x => submitCount x = c) (run_action E d a).
Proof.
  intros E d [op | k v] c Ha.
  - destruct op; try discriminate; unfold run_action, run_ctx_op, setErrors, setFieldError,
      setFieldValue, setValues, setFieldTouched, setTouched;
      pres_tac ltac:(fun x H => exact H);
      unfold setFieldValue, setFieldTouched; pres_tac ltac:(fun x H => exact H).
  - unfold run_action. pres_tac ltac:(fun x H => exact H).
Qed.

Lemma call_submit_cb_keeps_count : forall E cb c,
  (forall o, existsb resets_form (fst (cb o)) = false) ->
  pres (fun x => submitCount x = c) (call_submit_cb E cb).
Proof.
  intros E cb c Hcb. unfold call_submit_cb. apply pres_read_state; intros s0 _.
  specialize (Hcb (values_obj s0)). destruct (cb (values_obj s0)) as [acts th]. simpl in Hcb.
  apply pres_bind.
  - apply pres_for_each_in. intros a Ha. apply run_action_keeps_count.
    destruct (resets_form a) eqn:Er; [| reflexivity].
    rewrite <- Hcb. symmetry. apply existsb_exists. exists a. split; assumption.
  - intros _. destruct th; [apply pres_throw | apply pres_ret].
Qed.

(** X13: each submission attempt adds exactly one to [submitCount], whether
    the handler resolves or rejects, provided the submit callback it runs
    does not reset the form. *)
Theorem handleSubmit_counts_one_attempt : forall E ov oi s,
  (forall cb o, match ov with Some c => Some c | None => onSubmit E end = Some cb ->
                existsb resets_form (fst (cb o)) = false) ->
  submitCount (snd (handleSubmit E ov oi s)) = submitCount s + 1.
Proof.
  intros E ov oi s Hcb. unfold handleSubmit. rewrite !bind_modify. cbv beta.
  set (c := submitCount s + 1).
  assert (Hp : pres (fun x => submitCount x = c)
    (result <- validate E ;;
     (if fst result then
        try_catch_log
          (match ov with
           | Some cb => call_submit_cb E cb
           | None => match onSubmit E with
                     | Some cb => call_submit_cb E cb
                     | None => ret tt
                     end
           end)
      else match oi with
           | Some cb => call_invalid_cb cb
           | None => ret tt
           end) ;;;
     modify (with_submitting false))).
  { apply pres_bind; [apply validate_pres; intros ? ? H; exact H |].
    intros [b l]. apply pres_bind; [| intros _; apply pres_modify; intros ? H; exact H].
    destruct b; cbn [fst].
    - apply pres_try_catch_log.
      destruct ov as [cb |]; [| destruct (onSubmit E) as [cb |] eqn:Hs; [| apply pres_ret]];
        apply call_submit_cb_keeps_count; intros o; apply Hcb; reflexivity.
    - destruct oi as [cb |]; [| apply pres_ret].
      intros x Hx. unfold call_invalid_cb. destruct (cb (errors x)) as [e' [e |]]; exact Hx. }
  apply Hp. reflexivity.
Qed.

Lemma handleSubmit_counts_one_attempt_witness :
  (forall cb o, match @None submit_cb with Some c => Some c | None => onSubmit (env_of rejecting_opts) end
                = Some cb -> existsb resets_form (fst (cb o)) = false) /\
  submitCount (snd (handleSubmit (env_of rejecting_opts) None None (useForm rejecting_opts))) = 1.
Proof.
  assert (H : forall cb o, match @None submit_cb with Some c => Some c
                           | None => onSubmit (env_of rejecting_opts) end = Some cb ->
                           existsb resets_form (fst (cb o)) = false)
    by (intros cb o Hc; inversion Hc; reflexivity).
  split; [exact H | exact (handleSubmit_counts_one_attempt _ None None _ H)].
Defined.



(** ** Seeding keyed state: [setup], [resetForm] *)

Section Keyed.
Context {A V : Type}.
Variable proj : form_state -> list (string * V).
Variable step : string -> A -> M unit.
Variable f : A -> option V -> V.
Hypothesis step_ok : forall k a s, fst (step k a s) = Ok tt.
Hypothesis step_proj : forall k a s,
  proj (snd (step k a s)) = prop_set k (f a (prop_get k (proj s))) (proj s).

Lemma for_each_keyed : forall (l : list (string * A)) s,
  NoDup (map fst l) -> forall k,
  prop_get k (proj (snd (for_each (fun '(k, a) => step k a) l s))) =
  match prop_get k l with
  | Some a => Some (f a (prop_get k (proj s)))
  | None => prop_get k (proj s)
  end.
Proof.
  induction l as [| [k0 a0] l IH]; intros s Hnd k; [reflexivity |].
  inversion Hnd as [| ? ? _ Hnd']; subst.
  cbn [for_each]. unfold bind.
  pose proof (step_ok k0 a0 s) as Hok.
  destruct (step k0 a0 s) as [r s1] eqn:Hs; simpl in Hok; subst r.
  pose proof (step_proj k0 a0 s) as Hp. rewrite Hs in Hp; simpl in Hp.
  rewrite (IH s1 Hnd' k), Hp.
  destruct (String.eqb k k0) eqn:E.
  - apply String.eqb_eq in E; subst k0.
    rewrite (prop_get_none_of_nodup k a0 l Hnd), prop_get_cons_eq, prop_get_set_same.
    reflexivity.
  - assert (k <> k0) by (intro; subst; rewrite String.eqb_refl in E; discriminate).
    rewrite prop_get_cons_neq by assumption. rewrite !prop_get_set_other by assumption.
    reflexivity.
Qed.

End Keyed.

Lemma seed_errors : forall es s,
  NoDup (map fst es) -> forall k,
  prop_get k (errors (snd (for_each (fun '(k, v) => put_error k (JStr v)) es s))) =
  match prop_get k es with Some m => Some [JStr m] | None => prop_get k (errors s) end.
Proof.
  intros es s Hnd k.
  exact (for_each_keyed errors (fun k v => put_error k (JStr v)) (fun v _ => [JStr v])
           (fun _ _ _ => eq_refl) (fun _ _ _ => eq_refl) es s Hnd k).
Qed.

Lemma seed_touched : forall ts s,
  NoDup (map fst ts) -> forall k,
  prop_get k (fieldsMeta (snd (setTouched ts s))) =
  match prop_get k ts with
  | Some t => Some (set_touched t (match prop_get k (fieldsMeta s) with
                                   | Some m => m | None => new_meta t end))
  | None => prop_get k (fieldsMeta s)
  end.
Proof.
  intros ts s Hnd k.
  exact (for_each_keyed fieldsMeta setFieldTouched
           (fun t o => set_touched t (match o with Some m => m | None => new_meta t end))
           (fun _ _ _ => eq_refl) (fun _ _ _ => eq_refl) ts s Hnd k).
Qed.

Lemma reset_touched : forall ts s,
  NoDup (map fst ts) -> forall k,
  prop_get k (fieldsMeta (snd (for_each (fun '(k, t) =>
     modify (fun s => with_meta (prop_set k (new_meta t) (fieldsMeta s)) s)) ts s))) =
  match prop_get k ts with Some t => Some (new_meta t) | None => prop_get k (fieldsMeta s) end.
Proof.
  intros ts s Hnd k.
  exact (for_each_keyed fieldsMeta
           (fun k t => modify (fun s => with_meta (prop_set k (new_meta t) (fieldsMeta s)) s))
           (fun t _ => new_meta t) (fun _ _ _ => eq_refl) (fun _ _ _ => eq_refl) ts s Hnd k).
Qed.

(** What seeding errors or touched flags leaves alone. *)
Lemma seed_errors_keeps : forall es s,
  let s' := snd (for_each (fun '(k, v) => put_error k (JStr v)) es s) in
  heap s' = heap s /\ next_loc s' = next_loc s /\ values_loc s' = values_loc s /\
  fieldsMeta s' = fieldsMeta s /\ isSubmitting s' = isSubmitting s /\
  isValidating s' = isValidating s /\ submitCount s' = submitCount s /\
  fieldRules s' = fieldRules s.
Proof.
  intros es s.
  assert (Hp : pres (fun x => heap x = heap s /\ next_loc x = next_loc s /\
                              values_loc x = values_loc s /\ fieldsMeta x = fieldsMeta s /\
                              isSubmitting x = isSubmitting s /\
                              isValidating x = isValidating s /\
                              submitCount x = submitCount s /\ fieldRules x = fieldRules s)
                    (for_each (fun '(k, v) => put_error k (JStr v)) es)).
  { unfold put_error. pres_tac ltac:(fun x H => exact H). }
  apply Hp. repeat split.
Qed.

Lemma setTouched_keeps : forall ts s,
  let s' := snd (setTouched ts s) in
  heap s' = heap s /\ next_loc s' = next_loc s /\ values_loc s' = values_loc s /\
  errors s' = errors s /\ isSubmitting s' = isSubmitting s /\
  isValidating s' = isValidating s /\ submitCount s' = submitCount s /\
  fieldRules s' = fieldRules s.
Proof.
  intros ts s.
  assert (Hp : pres (fun x => heap x = heap s /\ next_loc x = next_loc s /\
                              values_loc x = values_loc s /\ errors x = errors s /\
                              isSubmitting x = isSubmitting s /\
                              isValidating x = isValidating s /\
                              submitCount x = submitCount s /\ fieldRules x = fieldRules s)
                    (setTouched ts)).
  { unfold setTouched, setFieldTouched. pres_tac ltac:(fun x H => exact H). }
  apply Hp. repeat split.
Qed.

(** X15: without [validateOnMount], [useForm(options)] starts from a copy
    of [initialValues] (a different object from the caller's), one error
    message per [initialErrors] entry, a fresh untouched-or-touched meta
    per [initialTouched] entry and nothing else, [submitCount = 0], both
    flags [false], and the rules of a rules-mapping schema. *)
Theorem useForm_initial_state : forall opts,
  o_validateOnMount opts = false ->
  NoDup (map fst (o_initialErrors opts)) -> NoDup (map fst (o_initialTouched opts)) ->
  let s := useForm opts in
  values_obj s = initial_object opts /\
  values_loc s <> initialValues_loc (env_of opts) /\
  (forall k, prop_get k (errors s) =
             option_map (fun m => [JStr m]) (prop_get k (o_initialErrors opts))) /\
  (forall k, prop_get k (fieldsMeta s) = option_map new_meta (prop_get k (o_initialTouched opts))) /\
  submitCount s = 0 /\ isSubmitting s = false /\ isValidating s = false /\
  fieldRules s = initial_rules (env_of opts).
Proof.
  intros opts Hm Hne Hnt s. subst s. unfold useForm. rewrite Hm. unfold setup_state.
  set (s0 := mkState [(0%nat, initial_object opts); (1%nat, initial_object opts)] 2 1 [] [] false
               false 0 (initial_rules (env_of opts))).
  set (s1 := snd (for_each (fun '(k, v) => put_error k (JStr v)) (o_initialErrors opts) s0)).
  destruct (seed_errors_keeps (o_initialErrors opts) s0) as (A1 & _ & A3 & A4 & A5 & A6 & A7 & A8).
  fold s1 in A1, A3, A4, A5, A6, A7, A8.
  destruct (setTouched_keeps (o_initialTouched opts) s1) as (B1 & _ & B3 & B4 & B5 & B6 & B7 & B8).
  split; [| split; [| split; [| split]]].
  - unfold values_obj, obj_at. rewrite B1, B3, A1, A3. reflexivity.
  - rewrite B3, A3. discriminate.
  - intros k. rewrite B4. subst s1. rewrite (seed_errors _ s0 Hne k).
    destruct (prop_get k (o_initialErrors opts)); reflexivity.
  - intros k. rewrite (seed_touched _ s1 Hnt k), A4.
    destruct (prop_get k (o_initialTouched opts)); reflexivity.
  - rewrite B5, B6, B7, B8, A5, A6, A7, A8. repeat split.
Qed.

Definition seeded_opts : use_form_options :=
  mkOptions (Some [("name", JStr "John")]) [("name", "Taken")] [("name", true)]
    None None false None.

Lemma useForm_initial_state_witness :
  o_validateOnMount seeded_opts = false /\
  NoDup (map fst (o_initialErrors seeded_opts)) /\ NoDup (map fst (o_initialTouched seeded_opts)) /\
  prop_get "name" (errors (useForm seeded_opts)) = Some [JStr "Taken"].
Proof.
  assert (H1 : o_validateOnMount seeded_opts = false) by reflexivity.
  assert (H2 : NoDup (map fst (o_initialErrors seeded_opts)))
    by (repeat constructor; simpl; tauto).
  assert (H3 : NoDup (map fst (o_initialTouched seeded_opts)))
    by (repeat constructor; simpl; tauto).
  split; [exact H1 | split; [exact H2 | split; [exact H3 |]]].
  destruct (useForm_initial_state seeded_opts H1 H2 H3) as (_ & _ & He & _).
  exact (He "name").
Defined.

(** X16: [resetForm(state)] with every part given makes [values] a fresh
    object holding [state.values], one error message per [state.errors]
    entry and nothing else, a fresh meta per [state.touched] entry and
    nothing else, [submitCount = state.submitCount], both flags [false];
    the field rules stay. *)
Theorem resetForm_with_state : forall E s o es ts n,
  NoDup (map fst es) -> NoDup (map fst ts) ->
  let s' := snd (resetForm E (Some (mkPartial (Some o) (Some es) (Some ts) (Some n))) s) in
  values_obj s' = o /\ values_loc s' = next_loc s /\
  (forall k, prop_get k (errors s') = option_map (fun m => [JStr m]) (prop_get k es)) /\
  (forall k, prop_get k (fieldsMeta s') = option_map new_meta (prop_get k ts)) /\
  submitCount s' = n /\ isSubmitting s' = false /\ isValidating s' = false /\
  fieldRules s' = fieldRules s.
Proof.
  intros E s o es ts n Hne Hnt s'. subst s'.
  assert (Hok : forall l s, fst (for_each (fun '(k, v) => put_error k (JStr v)) l s) = Ok tt).
  { induction l as [| [k v] l IH]; intros x; [reflexivity | apply IH]. }
  assert (Hok2 : forall l s, fst (for_each (fun '(k, t) =>
     modify (fun s => with_meta (prop_set k (new_meta t) (fieldsMeta s)) s)) l s) = Ok tt).
  { induction l as [| [k v] l IH]; intros x; [reflexivity | apply IH]. }
  remember (resetForm E (Some (mkPartial (Some o) (Some es) (Some ts) (Some n))) s) as r eqn:Hr.
  unfold resetForm, read_state in Hr.
  cbn [option_map ps_values ps_errors ps_touched ps_submitCount] in Hr.
  rewrite !bind_modify in Hr. cbv beta in Hr.
  rewrite (bind_ok _ _ _ _ (Hok es _)) in Hr.
  rewrite !bind_modify in Hr. cbv beta in Hr.
  rewrite (bind_ok _ _ _ _ (Hok2 ts _)) in Hr.
  rewrite !bind_modify in Hr. cbv beta in Hr. unfold modify in Hr. subst r. cbn [snd].
  set (s0 := with_errors [] (with_new_values o s)).
  pose proof (seed_errors_keeps es s0) as (A1 & A2 & A3 & A4 & A5 & A6 & A7 & A8).
  pose proof (seed_errors es s0 Hne) as Herr.
  set (s1 := snd (for_each (fun '(k, v) => put_error k (JStr v)) es s0)) in *.
  set (s2 := with_meta [] s1).
  pose proof (reset_touched ts s2 Hnt) as Htch.
  assert (Hp : pres (fun x => heap x = heap s2 /\ values_loc x = values_loc s2 /\
                              errors x = errors s2 /\ fieldRules x = fieldRules s2)
    (for_each (fun '(k, t) =>
       modify (fun s => with_meta (prop_set k (new_meta t) (fieldsMeta s)) s)) ts)).
  { pres_tac ltac:(fun x H => exact H). }
  specialize (Hp s2 (conj eq_refl (conj eq_refl (conj eq_refl eq_refl)))).
  set (s3 := snd (for_each _ ts s2)) in *.
  destruct Hp as (C1 & C2 & C3 & C4).
  split; [| split; [| split; [| split]]].
  - unfold values_obj, obj_at. cbn [heap values_loc with_count with_validating with_submitting].
    rewrite C1, C2. cbn [heap values_loc s2 with_meta]. rewrite A1, A3.
    simpl. rewrite Nat.eqb_refl. reflexivity.
  - cbn [values_loc with_count with_validating with_submitting]. rewrite C2. exact A3.
  - intros k. cbn [errors with_count with_validating with_submitting]. rewrite C3.
    cbn [errors s2 with_meta]. rewrite Herr.
    destruct (prop_get k es); reflexivity.
  - intros k. cbn [fieldsMeta with_count with_validating with_submitting]. rewrite Htch.
    destruct (prop_get k ts); reflexivity.
  - cbn [submitCount isSubmitting isValidating fieldRules with_count with_validating
         with_submitting].
    rewrite C4. cbn [fieldRules s2 with_meta]. rewrite A8. repeat split.
Qed.

Lemma resetForm_with_state_witness :
  NoDup (map fst [("name", "Taken")]) /\ NoDup (map fst [("name", true)]) /\
  submitCount (snd (resetForm (env_of plain_opts)
     (Some (mkPartial (Some [("name", JStr "Jane")]) (Some [("name", "Taken")])
                      (Some [("name", true)]) (Some 3))) (useForm plain_opts))) = 3.
Proof.
  assert (H1 : NoDup (map fst [("name", "Taken")])) by (repeat constructor; simpl; tauto).
  assert (H2 : NoDup (map fst [("name", true)])) by (repeat constructor; simpl; tauto).
  split; [exact H1 | split; [exact H2 |]].
  destruct (resetForm_with_state (env_of plain_opts) (useForm plain_opts)
              [("name", JStr "Jane")] _ _ 3 H1 H2) as (_ & _ & _ & _ & Hc & _).
  exact Hc.
Defined.

(** ** The [meta] computed after validation and reset *)

(** X17: after [resetForm()] the form meta reads pristine: nothing touched,
    dirty or pending, valid, not submitting or validating, no attempt
    counted. *)
Theorem resetForm_meta_pristine : forall E s,
  let m := meta E (snd (resetForm E None s)) in
  fm_touched m = false /\ fm_dirty m = false /\ fm_valid m = true /\ fm_pending m = false /\
  fm_isSubmitting m = false /\ fm_isValidating m = false /\ fm_submitCount m = 0.
Proof. intros E s. repeat split. Qed.

Lemma prop_get_delete_other {A} : forall k k' (l : list (string * A)),
  k <> k' -> prop_get k (prop_delete k' l) = prop_get k l.
Proof.
  intros k k' l Hne; induction l as [| [k0 v0] l IH]; simpl; [reflexivity |].
  destruct (String.eqb k' k0) eqn:E0.
  - apply String.eqb_eq in E0; subst k0.
    destruct (String.eqb k k') eqn:E; [apply String.eqb_eq in E; congruence | exact IH].
  - simpl. destruct (String.eqb k k0); [reflexivity | exact IH].
Qed.

Lemma validate_rules_loop_keeps_other : forall E entries b s r s' k,
  isZodSchema E = false -> isYupSchema E = false ->
  ~ In k (map fst entries) ->
  validate_rules_loop E entries b s = (r, s') ->
  prop_get k (errors s') = prop_get k (errors s).
Proof.
  intros E entries; induction entries as [| [n rs] entries IH];
    intros b s r s' k HZ HY Hk.
  - simpl. intros H; inversion H; reflexivity.
  - simpl validate_rules_loop. unfold bind.
    rewrite validateField_rules_mode by assumption.
    assert (Hn : k <> n) by (intro; subst; apply Hk; left; reflexivity).
    assert (Hk' : ~ In k (map fst entries)) by (intro; apply Hk; right; assumption).
    destruct (rule_verdict (value_of s n) rs) as [[[|] ms] | e] eqn:Hv.
    + intros H. rewrite (IH _ _ _ _ _ HZ HY Hk' H). simpl.
      apply prop_get_delete_other; exact Hn.
    + intros H. rewrite (IH _ _ _ _ _ HZ HY Hk' H). simpl.
      apply prop_get_set_other; exact Hn.
    + intros H; inversion H; reflexivity.
Qed.

Lemma validate_rules_loop_verdict : forall E entries b s b' s',
  isZodSchema E = false -> isYupSchema E = false ->
  NoDup (map fst entries) ->
  (forall n, In n (map fst entries) -> prop_get n (errors s) = None) ->
  validate_rules_loop E entries b s = (Ok b', s') ->
  (b' = true <-> b = true /\ errors s' = errors s).
Proof.
  intros E entries; induction entries as [| [n rs] entries IH];
    intros b s b' s' HZ HY Hnd Habs.
  - simpl. intros H; inversion H; subst. tauto.
  - inversion Hnd as [| ? ? Hnin Hnd']; subst.
    assert (Hn : prop_get n (errors s) = None) by (apply Habs; left; reflexivity).
    intros H. pose proof H as H0.
    simpl validate_rules_loop in H. unfold bind in H.
    rewrite validateField_rules_mode in H by assumption.
    destruct (rule_verdict (value_of s n) rs) as [[[|] ms] | e] eqn:Hv; simpl fst in H.
    + assert (He : errors (with_errors (bag_after n (Ok (true, ms)) (errors s)) s) = errors s)
        by (simpl; apply prop_delete_absent; exact Hn).
      assert (Hab : forall k, In k (map fst entries) ->
                prop_get k (errors (with_errors (bag_after n (Ok (true, ms)) (errors s)) s)) = None)
        by (intros k Hk; rewrite He; apply Habs; right; exact Hk).
      pose proof (IH _ _ _ _ HZ HY Hnd' Hab H) as Hi. rewrite He in Hi. exact Hi.
    + assert (Hs : prop_get n (errors s') = Some ms).
      { rewrite (validate_rules_loop_keeps_other _ _ _ _ _ _ n HZ HY Hnin H).
        simpl. apply prop_get_set_same. }
      assert (Hab : forall k, In k (map fst entries) ->
                prop_get k (errors (with_errors (bag_after n (Ok (false, ms)) (errors s)) s)) = None).
      { intros k Hk. simpl. rewrite prop_get_set_other by (intro; subst; contradiction).
        apply Habs; right; exact Hk. }
      destruct (IH _ _ _ _ HZ HY Hnd' Hab H) as [Hl _].
      split.
      * intros Hb. destruct (Hl Hb) as [Hf _]. discriminate.
      * intros [_ He]. rewrite He, Hn in Hs. discriminate.
    + discriminate.
Qed.

(** X18: with a rules mapping (whose keys are distinct, as an object's
    are), the [meta.valid] flag after [validate()] agrees with the
    [valid] it resolves with. *)
Theorem validate_rules_meta_valid_agrees : forall E s b l,
  isZodSchema E = false -> isYupSchema E = false ->
  NoDup (map fst (fieldRules s)) ->
  fst (validate E s) = Ok (b, l) ->
  fm_valid (meta E (snd (validate E s))) = b.
Proof.
  intros E s b l HZ HY Hnd.
  remember (validate E s) as r eqn:Hr. unfold validate in Hr.
  rewrite !bind_modify in Hr. cbv beta in Hr. unfold read_state in Hr.
  set (s0 := with_errors [] (with_validating true s)) in Hr.
  assert (He0 : errors s0 = []) by reflexivity.
  assert (Hr0 : fieldRules s0 = fieldRules s) by reflexivity.
  clearbody s0. rewrite HZ, HY in Hr. subst r.
  unfold bind, modify, gets, ret.
  destruct (validate_rules_loop E (fieldRules s0) true s0) as [[b' | e] s1] eqn:Hl;
    simpl; [| discriminate].
  intros H; inversion H; subst b l. clear H.
  rewrite Hr0 in Hl.
  assert (Habs : forall n, In n (map fst (fieldRules s)) -> prop_get n (errors s0) = None)
    by (intros n _; rewrite He0; reflexivity).
  pose proof (validate_rules_loop_verdict E _ _ _ _ _ HZ HY Hnd Habs Hl) as Hiff.
  rewrite He0 in Hiff. unfold meta; cbn [fm_valid errors with_validating].
  destruct (errors s1) as [| x l'] eqn:E1.
  - symmetry. apply (proj2 Hiff). split; reflexivity.
  - destruct b'; [destruct (proj1 Hiff eq_refl) as [_ Hc]; discriminate | reflexivity].
Qed.

Lemma validate_rules_meta_valid_agrees_witness :
  fst (validate (env_of two_field_opts) (useForm two_field_opts)) =
    Ok (false, [("name", JStr "Name is required"); ("email", JStr "Invalid email")]) /\
  fm_valid (meta (env_of two_field_opts)
              (snd (validate (env_of two_field_opts) (useForm two_field_opts)))) = false.
Proof.
  assert (H : fst (validate (env_of two_field_opts) (useForm two_field_opts)) =
    Ok (false, [("name", JStr "Name is required"); ("email", JStr "Invalid email")]))
    by (vm_compute; reflexivity).
  assert (HZ : isZodSchema (env_of two_field_opts) = false) by reflexivity.
  assert (HY : isYupSchema (env_of two_field_opts) = false) by reflexivity.
  assert (Hnd : NoDup (map fst (fieldRules (useForm two_field_opts))))
    by (vm_compute; repeat constructor; simpl; intuition discriminate).
  split; [exact H | exact (validate_rules_meta_valid_agrees _ _ _ _ HZ HY Hnd H)].
Defined.

(** ** Schema failures *)

(** A Zod issue [{ path: [k], message: m }]. *)
Definition zod_issue (p : string * jsval) : jsval :=
  JObj [("path", JArr [JStr (fst p)]); ("message", snd p)].

(** A Yup inner error [{ path: k, message: m }]. *)
Definition yup_issue (p : string * jsval) : jsval :=
  JObj [("path", JStr (fst p)); ("message", snd p)].

(** The messages of the issues for field [k], in order. *)
Definition msgs_for (k : string) (issues : list (string * jsval)) : list jsval :=
  map snd (filter (fun p => String.eqb (fst p) k) issues).

Section Grouping.
Variable enc : string * jsval -> jsval.
Variable body : jsval -> M unit.
Hypothesis body_enc : forall p s, body (enc p) s = push_error (fst p) (snd p) s.

Lemma for_each_push_groups : forall issues s,
  let r := for_each body (map enc issues) s in
  fst r = Ok tt /\
  (forall k, prop_get k (errors (snd r)) =
     match prop_get k (errors s) with
     | Some l => Some (l ++ msgs_for k issues)%list
     | None => match msgs_for k issues with [] => None | l => Some l end
     end) /\
  snd r = with_errors (errors (snd r)) s.
Proof.
  induction issues as [| [k0 m0] issues IH]; intros s r; subst r.
  - split; [reflexivity | split; [| destruct s; reflexivity]].
    intros k. simpl. destruct (prop_get k (errors s)); [rewrite app_nil_r |]; reflexivity.
  - cbn [map for_each].
    rewrite (bind_ok _ _ s tt) by (rewrite body_enc; reflexivity).
    rewrite body_enc. cbn [fst snd].
    destruct (IH (snd (push_error k0 m0 s))) as (Hok & Hg & Hst).
    set (s1 := snd (push_error k0 m0 s)) in *.
    unfold push_error, modify in s1. cbn [snd] in s1.
    split; [exact Hok | split].
    + intros k. rewrite Hg. subst s1. cbn [errors with_errors].
      unfold msgs_for; cbn [filter fst]; fold (msgs_for k issues).
      destruct (String.eqb k k0) eqn:E.
      * apply String.eqb_eq in E; subst k0.
        rewrite prop_get_set_same, String.eqb_refl. cbn [map snd].
        destruct (prop_get k (errors s)); rewrite <- app_assoc; reflexivity.
      * assert (k <> k0) by (intro; subst; rewrite String.eqb_refl in E; discriminate).
        rewrite prop_get_set_other by assumption.
        assert (Hf : String.eqb k0 k = false) by (rewrite String.eqb_sym; exact E).
        rewrite Hf. reflexivity.
    + rewrite Hst. reflexivity.
Qed.

End Grouping.

Lemma zod_body_enc : forall p s,
  (fun error =>
     fieldName <- lift (rbind (get_prop error "path") get_first) ;;
     msg <- lift (get_prop error "message") ;;
     push_error (js_to_string fieldName) msg) (zod_issue p) s = push_error (fst p) (snd p) s.
Proof. intros [k m] s. reflexivity. Qed.

Lemma yup_body_enc : forall p s,
  (fun error =>
     fieldName <- lift (get_prop error "path") ;;
     msg <- lift (get_prop error "message") ;;
     push_error (js_to_string fieldName) msg) (yup_issue p) s = push_error (fst p) (snd p) s.
Proof. intros [k m] s. reflexivity. Qed.

Lemma validate_zod_issues_core : forall E s err issues,
  isZodSchema E = true ->
  zod_parse E (values_obj s) = Throw (JObj err) ->
  prop_get "issues" err = Some (JArr (map zod_issue issues)) ->
  let s' := snd (validate E s) in
  fst (validate E s) = Ok (false, simple_errors (errors s')) /\
  (forall k, prop_get k (errors s') = match msgs_for k issues with [] => None | l => Some l end) /\
  isValidating s' = false.
Proof.
  intros E s err issues HZ Hp Hi s'. subst s'.
  remember (validate E s) as r eqn:Hr. unfold validate in Hr.
  rewrite !bind_modify in Hr. cbv beta in Hr. unfold read_state in Hr.
  set (s0 := with_errors [] (with_validating true s)) in Hr.
  assert (He0 : errors s0 = []) by reflexivity.
  assert (Hp0 : zod_parse E (values_obj s0) = Throw (JObj err)) by exact Hp.
  clearbody s0. rewrite HZ, Hp0 in Hr.
  unfold zod_issues, get_prop at 1, rbind in Hr. rewrite Hi in Hr.
  cbn [truthy lift] in Hr. unfold js_for_each in Hr.
  rewrite bind_ok with (a := JArr (map zod_issue issues)) in Hr by reflexivity.
  cbn [snd] in Hr.
  destruct (for_each_push_groups zod_issue _ zod_body_enc issues s0) as (Hok & Hg & _).
  rewrite (bind_ok _ _ _ _ Hok) in Hr.
  unfold finish_invalid in Hr. rewrite bind_modify in Hr. subst r.
  cbn [fst snd]. split; [reflexivity | split; [| reflexivity]].
  intros k. cbn [errors with_validating]. rewrite Hg, He0. reflexivity.
Qed.

(** X19: when a Zod schema rejects the form with an [issues] list whose
    paths are single keys, [validate()] groups the messages by key, in
    issue order, into an otherwise empty error bag; it resolves invalid
    with each key's first message and [isValidating] cleared. *)
Theorem validate_zod_groups_issues : forall E s err issues,
  isZodSchema E = true ->
  zod_parse E (values_obj s) = Throw (JObj err) ->
  prop_get "issues" err = Some (JArr (map zod_issue issues)) ->
  let s' := snd (validate E s) in
  fst (validate E s) = Ok (false, simple_errors (errors s')) /\
  (forall k, prop_get k (errors s') = match msgs_for k issues with [] => None | l => Some l end) /\
  isValidating s' = false.
Proof. exact validate_zod_issues_core. Qed.

Definition zod_reject_opts (issues : list (string * jsval)) : use_form_options :=
  mkOptions (Some [("name", JStr "")]) [] []
    (Some (mkSchema true false
             (Some (fun _ => Throw (JObj [("issues", JArr (map zod_issue issues))])))
             None None []))
    None false None.

Definition two_issues : list (string * jsval) :=
  [("name", JStr "Required"); ("name", JStr "Too short")].

Lemma validate_zod_groups_issues_witness :
  isZodSchema (env_of (zod_reject_opts two_issues)) = true /\
  prop_get "name" (errors (snd (validate (env_of (zod_reject_opts two_issues))
                                  (useForm (zod_reject_opts two_issues)))))
  = Some [JStr "Required"; JStr "Too short"].
Proof.
  assert (HZ : isZodSchema (env_of (zod_reject_opts two_issues)) = true) by reflexivity.
  split; [exact HZ |].
  destruct (validate_zod_groups_issues (env_of (zod_reject_opts two_issues))
              (useForm (zod_reject_opts two_issues))
              [("issues", JArr (map zod_issue two_issues))] two_issues HZ eq_refl eq_refl)
    as (_ & Hg & _).
  exact (Hg "name").
Defined.

(** X20: the same grouping for a Yup [ValidationError] whose [inner]
    errors carry string paths. *)
Theorem validate_yup_groups_inner : forall E s err issues,
  isZodSchema E = false -> isYupSchema E = true ->
  yup_validate E (values_obj s) = Throw (JObj err) ->
  prop_get "inner" err = Some (JArr (map yup_issue issues)) ->
  let s' := snd (validate E s) in
  fst (validate E s) = Ok (false, simple_errors (errors s')) /\
  (forall k, prop_get k (errors s') = match msgs_for k issues with [] => None | l => Some l end) /\
  isValidating s' = false.
Proof.
  intros E s err issues HZ HY Hp Hi s'. subst s'.
  remember (validate E s) as r eqn:Hr. unfold validate in Hr.
  rewrite !bind_modify in Hr. cbv beta in Hr. unfold read_state in Hr.
  set (s0 := with_errors [] (with_validating true s)) in Hr.
  assert (He0 : errors s0 = []) by reflexivity.
  assert (Hp0 : yup_validate E (values_obj s0) = Throw (JObj err)) by exact Hp.
  clearbody s0. rewrite HZ, HY, Hp0 in Hr.
  unfold get_prop at 1 in Hr. rewrite Hi in Hr.
  rewrite bind_ok with (a := JArr (map yup_issue issues)) in Hr by reflexivity.
  cbn [snd lift] in Hr. unfold js_for_each in Hr.
  destruct (for_each_push_groups yup_issue _ yup_body_enc issues s0) as (Hok & Hg & _).
  rewrite (bind_ok _ _ _ _ Hok) in Hr.
  unfold finish_invalid in Hr. rewrite bind_modify in Hr. subst r.
  cbn [fst snd]. split; [reflexivity | split; [| reflexivity]].
  intros k. cbn [errors with_validating]. rewrite Hg, He0. reflexivity.
Qed.

Definition yup_reject_opts (issues : list (string * jsval)) : use_form_options :=
  mkOptions (Some [("name", JStr "")]) [] []
    (Some (mkSchema false true None None
             (Some (fun _ => Throw (JObj [("inner", JArr (map yup_issue issues))])))
             []))
    None false None.

Lemma validate_yup_groups_inner_witness :
  isYupSchema (env_of (yup_reject_opts two_issues)) = true /\
  prop_get "name" (errors (snd (validate (env_of (yup_reject_opts two_issues))
                                  (useForm (yup_reject_opts two_issues)))))
  = Some [JStr "Required"; JStr "Too short"].
Proof.
  assert (HZ : isZodSchema (env_of (yup_reject_opts two_issues)) = false) by reflexivity.
  assert (HY : isYupSchema (env_of (yup_reject_opts two_issues)) = true) by reflexivity.
  split; [exact HY |].
  destruct (validate_yup_groups_inner (env_of (yup_reject_opts two_issues))
              (useForm (yup_reject_opts two_issues))
              [("inner", JArr (map yup_issue two_issues))] two_issues HZ HY eq_refl eq_refl)
    as (_ & Hg & _).
  exact (Hg "name").
Defined.

(** X21: a Zod failure whose [issues] list is empty makes [validate()]
    resolve invalid with no errors, while [meta.valid] (no error keys)
    reads [true]. *)
Theorem validate_zod_empty_issues_meta_valid : forall E s err,
  isZodSchema E = true ->
  zod_parse E (values_obj s) = Throw (JObj err) ->
  prop_get "issues" err = Some (JArr []) ->
  fst (validate E s) = Ok (false, []) /\ fm_valid (meta E (snd (validate E s))) = true.
Proof.
  intros E s err HZ Hp Hi.
  destruct (validate_zod_issues_core E s err [] HZ Hp Hi) as (H1 & H2 & _).
  assert (He : errors (snd (validate E s)) = []).
  { destruct (errors (snd (validate E s))) as [| [k l] rest] eqn:E0; [reflexivity |].
    specialize (H2 k). try rewrite E0 in H2. simpl in H2. rewrite String.eqb_refl in H2.
    discriminate. }
  rewrite He in H1. split; [exact H1 |]. unfold meta; simpl. rewrite He. reflexivity.
Qed.

Lemma validate_zod_empty_issues_meta_valid_witness :
  isZodSchema (env_of (zod_reject_opts [])) = true /\
  fst (validate (env_of (zod_reject_opts [])) (useForm (zod_reject_opts []))) = Ok (false, []).
Proof.
  assert (HZ : isZodSchema (env_of (zod_reject_opts [])) = true) by reflexivity.
  split; [exact HZ |].
  exact (proj1 (validate_zod_empty_issues_meta_valid _ _ [("issues", JArr [])] HZ eq_refl eq_refl)).
Defined.

Lemma find_aux_zod : forall n issues,
  find_aux (path_is n) (map zod_issue issues) =
  Ok (match find (fun p => String.eqb (fst p) n) issues with
      | Some p => zod_issue p | None => JUndef end).
Proof.
  intros n issues; induction issues as [| [k m] issues IH]; [reflexivity |].
  cbn [map find_aux find fst].
  change (path_is n (zod_issue (k, m))) with (Ok (String.eqb k n) : res bool).
  destruct (String.eqb k n); [reflexivity | exact IH].
Qed.

(** X22: in Zod mode, [validateField(n)] on a rejected form reports the
    first issue whose path is [n]: its message becomes the field's only
    error; with no such issue the field's error is cleared and the field
    reported valid.  The field's own rules play no part. *)
Theorem validateField_zod_first_issue : forall E n r s err issues,
  isZodSchema E = true ->
  zod_parse E (values_obj s) = Throw (JObj err) ->
  prop_get "issues" err = Some (JArr (map zod_issue issues)) ->
  validateField E n r s =
  match find (fun p => String.eqb (fst p) n) issues with
  | Some (_, m) => (Ok (false, [m]), with_errors (prop_set n [m] (errors s)) s)
  | None => (Ok (true, []), with_errors (prop_delete n (errors s)) s)
  end.
Proof.
  intros E n r s err issues HZ Hp Hi.
  unfold validateField, read_state. rewrite HZ, Hp.
  unfold zod_issues, rbind, get_prop at 1. rewrite Hi. cbn [truthy].
  unfold bind, lift. unfold js_find. rewrite find_aux_zod.
  destruct (find (fun p => String.eqb (fst p) n) issues) as [[k m] |]; reflexivity.
Qed.

Lemma validateField_zod_first_issue_witness :
  isZodSchema (env_of (zod_reject_opts two_issues)) = true /\
  fst (validateField (env_of (zod_reject_opts two_issues)) "name" None
         (useForm (zod_reject_opts two_issues))) = Ok (false, [JStr "Required"]).
Proof.
  assert (HZ : isZodSchema (env_of (zod_reject_opts two_issues)) = true) by reflexivity.
  split; [exact HZ |].
  rewrite (validateField_zod_first_issue _ "name" None _
             [("issues", JArr (map zod_issue two_issues))] two_issues HZ eq_refl eq_refl).
  reflexivity.
Defined.

(** ** Round trips and invariants of the public surface *)

(** X23: [getFieldError(k)] after [setFieldError(n, m)] reads [m] for
    [k = n] and what it read before for every other field. *)
Theorem getFieldError_after_setFieldError : forall n m s k,
  getFieldError k (snd (setFieldError n m s)) =
  if String.eqb k n then JStr m else getFieldError k s.
Proof.
  intros n m s k. unfold getFieldError, setFieldError, modify; cbn [snd errors with_errors].
  destruct (String.eqb k n) eqn:E.
  - apply String.eqb_eq in E; subst. rewrite prop_get_set_same. reflexivity.
  - rewrite prop_get_set_other by (intro; subst; rewrite String.eqb_refl in E; discriminate).
    reflexivity.
Qed.

(** X24: [setTouched(fields)] sets [touched] on exactly the named fields'
    meta (creating it when absent) and changes neither the values nor the
    error bag. *)
Theorem setTouched_sets_each : forall ts s,
  NoDup (map fst ts) ->
  let s' := snd (setTouched ts s) in
  (forall k, prop_get k (fieldsMeta s') =
     match prop_get k ts with
     | Some t => Some (set_touched t (match prop_get k (fieldsMeta s) with
                                      | Some m => m | None => new_meta t end))
     | None => prop_get k (fieldsMeta s)
     end) /\
  heap s' = heap s /\ values_loc s' = values_loc s /\ errors s' = errors s.
Proof.
  intros ts s Hnd s'. subst s'.
  destruct (setTouched_keeps ts s) as (H1 & _ & H3 & H4 & _).
  split; [exact (seed_touched ts s Hnd) | split; [exact H1 | split; [exact H3 | exact H4]]].
Qed.

Lemma setTouched_sets_each_witness :
  NoDup (map fst [("name", true); ("age", false)]) /\
  prop_get "age" (fieldsMeta (snd (setTouched [("name", true); ("age", false)]
                                     (useForm plain_opts)))) = Some (new_meta false).
Proof.
  assert (Hnd : NoDup (map fst [("name", true); ("age", false)]))
    by (repeat constructor; simpl; intuition discriminate).
  split; [exact Hnd |].
  rewrite (proj1 (setTouched_sets_each _ (useForm plain_opts) Hnd) "age").
  reflexivity.
Defined.

(** A submit callback that writes into the values object it receives. *)
Definition writing_submit : submit_cb :=
  fun _ => ([AWriteData "name" (JStr "Changed"); ACtx (CSetFieldValue "age" (JNum 1))], None).

Definition writing_opts : use_form_options :=
  mkOptions (Some [("name", JStr "John")]) [] [] None None false (Some writing_submit).

(** X25: in every state the engine can reach, [meta.initialValues] is still
    the caller's [initialValues] object, unchanged, and [values] is a
    different object: no edit, submission callback or reset writes
    through to it. *)
Theorem initialValues_never_mutated : forall opts s,
  reachable opts s ->
  fm_initialValues (meta (env_of opts) s) = initial_object opts /\
  values_loc s <> initialValues_loc (env_of opts).
Proof.
  intros opts s Hr.
  destruct (reachable_apart opts s Hr) as (Hio & Hvl & _).
  unfold meta, obj_at; cbn [fm_initialValues initialValues_loc env_of]. rewrite Hio.
  split; [reflexivity | exact Hvl].
Qed.

Lemma initialValues_never_mutated_witness :
  reachable writing_opts (run_op (env_of writing_opts) OpSubmitForm (useForm writing_opts)) /\
  value_of (run_op (env_of writing_opts) OpSubmitForm (useForm writing_opts)) "name"
    = JStr "Changed" /\
  fm_initialValues (meta (env_of writing_opts)
     (run_op (env_of writing_opts) OpSubmitForm (useForm writing_opts)))
    = [("name", JStr "John")].
Proof.
  assert (Hr : reachable writing_opts
                 (run_op (env_of writing_opts) OpSubmitForm (useForm writing_opts)))
    by (apply reach_step; apply reach_init).
  split; [exact Hr | split; [vm_compute; reflexivity |]].
  exact (proj1 (initialValues_never_mutated writing_opts _ Hr)).
Defined.

(** X26: a submission handler that resolves has cleared [isSubmitting]. *)
Theorem handleSubmit_resolved_clears_submitting : forall E ov oi s,
  fst (handleSubmit E ov oi s) = Ok tt ->
  isSubmitting (snd (handleSubmit E ov oi s)) = false.
Proof. exact handleSubmit_resolved_not_submitting. Qed.

Lemma handleSubmit_resolved_clears_submitting_witness :
  fst (handleSubmit (env_of writing_opts) None None (useForm writing_opts)) = Ok tt /\
  isSubmitting (snd (handleSubmit (env_of writing_opts) None None (useForm writing_opts))) = false.
Proof.
  assert (H : fst (handleSubmit (env_of writing_opts) None None (useForm writing_opts)) = Ok tt)
    by (vm_compute; reflexivity).
  split; [exact H | exact (handleSubmit_resolved_clears_submitting _ _ _ _ H)].
Defined.
